(** * Request orchestration of the future-value calculator widget

    A shallow embedding of the request layer of [FutureValueCalculator]
    (components/future-value-calculator.tsx): the response cache with its
    eviction scan, the minimum spacing between requests, the in-flight
    guard, the queued retry, and the two effects that call
    [fetchCalculation] (one keyed on the callback, one behind a timer).

    Conventions of the embedding.
    - JavaScript numbers are modelled by [Z]: clock readings are integral
      milliseconds, and the inputs and payload fields are taken at their
      integer values ([Math.floor] is then the identity).
    - Every [Date.now()] of the source is an explicit argument, named after
      the line that reads it, so no theorem depends on two readings of one
      synchronous run being equal.
    - An [async] function is cut at its [await]: the part before it is
      [fetchCalculation], the part after it is [fetchCalculation_resume],
      and the suspended continuations are kept in the state.
    - A closure is represented by the values it captured. *)

From Stdlib Require Import ZArith List Ascii String Bool Lia.
From Stdlib Require Import DecimalString DecimalPos DecimalZ.
Import ListNotations.
Local Open Scope Z_scope.

(** ** Constants *)

Definition MIN_REQUEST_INTERVAL : Z := 1000.
Definition DEBOUNCE_DELAY : Z := 500.
Definition CACHE_DURATION : Z := 10 * 60 * 1000.
Definition MAX_CACHE_SIZE : Z := 100.

(** ** Data *)

Record CalculationResult : Type := mkResult {
  current_cost : Z;
  inflation_rate : Z;
  no_years : Z;
  future_amount : Z
}.

Record CacheEntry : Type := mkEntry {
  result : CalculationResult;
  timestamp : Z;
  hitCount : Z
}.

(** The three [useState] inputs; also what a [fetchCalculation] closure
    captures, since the callback is rebuilt exactly when one of them
    changes. *)
Record Inputs : Type := mkInputs {
  currentCost : Z;
  inflationRate : Z;
  years : Z
}.

Definition Inputs_eqb (a b : Inputs) : bool :=
  (currentCost a =? currentCost b)
  && (inflationRate a =? inflationRate b)
  && (years a =? years b).

(** ** A JavaScript [Map] with string keys

    Iteration follows insertion order, [set] on a present key keeps the
    key's position, so the map is an association list without repeated
    keys. *)
Module JsMap.

Definition t (V : Type) : Type := list (string * V).

Definition empty {V : Type} : t V := [].

Fixpoint get {V : Type} (m : t V) (k : string) : option V :=
  match m with
  | [] => None
  | (k', v) :: rest => if String.eqb k' k then Some v else get rest k
  end.

Fixpoint set {V : Type} (m : t V) (k : string) (v : V) : t V :=
  match m with
  | [] => [(k, v)]
  | (k', v') :: rest =>
      if String.eqb k' k then (k', v) :: rest else (k', v') :: set rest k v
  end.

Fixpoint delete {V : Type} (m : t V) (k : string) : t V :=
  match m with
  | [] => []
  | (k', v) :: rest =>
      if String.eqb k' k then rest else (k', v) :: delete rest k
  end.

Definition size {V : Type} (m : t V) : Z := Z.of_nat (List.length m).

Definition entries {V : Type} (m : t V) : list (string * V) := m.

Definition keys {V : Type} (m : t V) : list string := map fst m.

End JsMap.

(** ** JavaScript odds and ends *)

(** [n.toString()] of an integral number, in decimal: what JavaScript
    prints for every safe integer (beyond [MAX_SAFE_INTEGER] it rounds,
    and from 1e21 it switches to exponent notation). *)
Definition toString (n : Z) : string := NilZero.string_of_int (Z.to_int n).

Definition Math_floor (n : Z) : Z := n.

(** Truthiness of a possibly missing number, string. *)
Definition truthy_num (o : option Z) : bool :=
  match o with
  | Some v => negb (v =? 0)
  | None => false
  end.

Definition truthy_str (s : string) : bool := negb (String.eqb s EmptyString).

(** [x || d] on a possibly missing number: [d] when [x] is undefined or 0. *)
Definition or_num (x : option Z) (d : Z) : Z :=
  match x with
  | Some v => if v =? 0 then d else v
  | None => d
  end.

(** [x || d] on a possibly missing string. *)
Definition or_str (x : option string) (d : string) : string :=
  match x with
  | Some v => if truthy_str v then v else d
  | None => d
  end.

(** [x === n] for a possibly missing number. *)
Definition strict_eq_num (x : option Z) (n : Z) : bool :=
  match x with
  | Some v => v =? n
  | None => false
  end.

(** ** The remote service, seen from the widget *)

(** The parsed body [data]: every field may be missing. *)
Record Payload : Type := mkPayload {
  data_current_cost : option Z;
  data_inflation_rate : option Z;
  data_no_years : option Z;
  data_future_amount : option Z;
  data_status : option Z;
  data_status_msg : option string
}.

(** A value caught by [catch (err)]. *)
Inductive Thrown : Type :=
  | ErrorObject (message : string)
  | OtherValue.

(** How the two awaits end. [Rejected]: [fetch] rejects, on a network
    failure, and there is no response. [Unparsed]: the response arrives
    with its HTTP [status], and [response.json()] rejects because the
    body does not parse. [Responded]: both awaits resolve, and the code
    holds [response.status] and the fields of [data] it reads. A body
    that parses to [null] is read only under a status other than 429,
    where [data.status] throws: it ends as [Unparsed] does. *)
Inductive FetchOutcome : Type :=
  | Rejected (err : Thrown)
  | Unparsed (status : Z) (err : Thrown)
  | Responded (status : Z) (data : Payload).

(** [response.ok]. *)
Definition response_ok (status : Z) : bool :=
  (200 <=? status) && (status <=? 299).

(** The query of one [fetch] call. *)
Record Request : Type := mkRequest {
  q_current_cost : string;
  q_inflation_rate : string;
  q_no_years : string
}.

(** ** State of one widget instance *)

(** A call of [fetchCalculation] suspended at [await fetch(...)]: the
    closure it belongs to, its arguments and its [cacheKey]. *)
Record Suspended : Type := mkSuspended {
  closure : Inputs;
  cost : Z;
  rate : Z;
  yrs : Z;
  cacheKey : string
}.

(** A retry timer set by the [finally] block: its callback calls the
    closure that set it, with that closure's inputs. *)
Record Timeout : Type := mkTimeout {
  callback : Inputs;
  armed_at : Z;
  delay : Z
}.

Record State : Type := mkState {
  cacheRef : JsMap.t CacheEntry;
  lastRequestTimeRef : Z;
  requestQueueRef : bool;
  pendingRequestRef : bool;
  cur_result : option CalculationResult;
  loading : bool;
  error : option string;
  requests : list Request;
  awaiting : list Suspended;
  timeouts : list Timeout
}.

Definition initial : State :=
  mkState JsMap.empty 0 false false None false None [] [] [].

Definition set_cacheRef (c : JsMap.t CacheEntry) (s : State) : State :=
  mkState c (lastRequestTimeRef s) (requestQueueRef s) (pendingRequestRef s)
          (cur_result s) (loading s) (error s) (requests s) (awaiting s)
          (timeouts s).

Definition set_lastRequestTimeRef (t : Z) (s : State) : State :=
  mkState (cacheRef s) t (requestQueueRef s) (pendingRequestRef s)
          (cur_result s) (loading s) (error s) (requests s) (awaiting s)
          (timeouts s).

Definition set_requestQueueRef (b : bool) (s : State) : State :=
  mkState (cacheRef s) (lastRequestTimeRef s) b (pendingRequestRef s)
          (cur_result s) (loading s) (error s) (requests s) (awaiting s)
          (timeouts s).

Definition set_pendingRequestRef (b : bool) (s : State) : State :=
  mkState (cacheRef s) (lastRequestTimeRef s) (requestQueueRef s) b
          (cur_result s) (loading s) (error s) (requests s) (awaiting s)
          (timeouts s).

Definition setResult (r : option CalculationResult) (s : State) : State :=
  mkState (cacheRef s) (lastRequestTimeRef s) (requestQueueRef s)
          (pendingRequestRef s) r (loading s) (error s) (requests s)
          (awaiting s) (timeouts s).

Definition setLoading (b : bool) (s : State) : State :=
  mkState (cacheRef s) (lastRequestTimeRef s) (requestQueueRef s)
          (pendingRequestRef s) (cur_result s) b (error s) (requests s)
          (awaiting s) (timeouts s).

Definition setError (e : option string) (s : State) : State :=
  mkState (cacheRef s) (lastRequestTimeRef s) (requestQueueRef s)
          (pendingRequestRef s) (cur_result s) (loading s) e (requests s)
          (awaiting s) (timeouts s).

(** [fetch(url)]: the request leaves and the caller is parked. *)
Definition send (q : Request) (k : Suspended) (s : State) : State :=
  mkState (cacheRef s) (lastRequestTimeRef s) (requestQueueRef s)
          (pendingRequestRef s) (cur_result s) (loading s) (error s)
          (requests s ++ [q]) (awaiting s ++ [k]) (timeouts s).

Definition set_awaiting (l : list Suspended) (s : State) : State :=
  mkState (cacheRef s) (lastRequestTimeRef s) (requestQueueRef s)
          (pendingRequestRef s) (cur_result s) (loading s) (error s)
          (requests s) l (timeouts s).

Definition setTimeout (cb : Inputs) (now ms : Z) (s : State) : State :=
  mkState (cacheRef s) (lastRequestTimeRef s) (requestQueueRef s)
          (pendingRequestRef s) (cur_result s) (loading s) (error s)
          (requests s) (awaiting s) (timeouts s ++ [mkTimeout cb now ms]).

Definition set_timeouts (l : list Timeout) (s : State) : State :=
  mkState (cacheRef s) (lastRequestTimeRef s) (requestQueueRef s)
          (pendingRequestRef s) (cur_result s) (loading s) (error s)
          (requests s) (awaiting s) l.

(** ** [fetchCalculation] *)

Definition RATE_LIMIT_MESSAGE : string :=
  "Rate limit exceeded. Please wait before making another request."%string.

Definition getCacheKey (cost rate yrs : Z) : string :=
  (toString cost ++ "-" ++ toString rate ++ "-" ++ toString yrs)%string.

(** [isCacheValid(timestamp)], [now] being its [Date.now()]. *)
Definition isCacheValid (now timestamp : Z) : bool :=
  now - timestamp <? CACHE_DURATION.

(** The [for ... of cacheRef.current.entries()] loop of the eviction. *)
Fixpoint oldest_scan (entries : list (string * CacheEntry))
         (oldestKey : option string) (oldestTime : Z) : option string :=
  match entries with
  | [] => oldestKey
  | (key, entry) :: rest =>
      if timestamp entry <? oldestTime
      then oldest_scan rest (Some key) (timestamp entry)
      else oldest_scan rest oldestKey oldestTime
  end.

(** [cacheRef.current.set(...)] followed by the size check and the
    eviction; [tSet] and [tScan] are the two [Date.now()] of that code. *)
Definition cache_put (cache : JsMap.t CacheEntry) (cacheKey : string)
           (calculationResult : CalculationResult) (tSet tScan : Z)
  : JsMap.t CacheEntry :=
  let cache := JsMap.set cache cacheKey (mkEntry calculationResult tSet 1) in
  if JsMap.size cache >? MAX_CACHE_SIZE then
    match oldest_scan (JsMap.entries cache) None tScan with
    | Some oldestKey =>
        if truthy_str oldestKey then JsMap.delete cache oldestKey else cache
    | None => cache
    end
  else cache.

(** [cached && isCacheValid(cached.timestamp)]: the entry when the test
    passes; [now] is the [Date.now()] of [isCacheValid]. *)
Definition valid_entry (cached : option CacheEntry) (now : Z)
  : option CacheEntry :=
  match cached with
  | Some c => if isCacheValid now (timestamp c) then Some c else None
  | None => None
  end.

(** The part of [fetchCalculation] before its first [await].
    [tValid] is the [Date.now()] of [isCacheValid], [tNow] the one that
    follows the cache lookup. *)
Definition fetchCalculation (s : State) (self : Inputs) (cost rate yrs : Z)
           (tValid tNow : Z) : State :=
  if pendingRequestRef s then s
  else
    let cacheKey := getCacheKey cost rate yrs in
    let cached := JsMap.get (cacheRef s) cacheKey in
    match valid_entry cached tValid with
    | Some c =>
        let s := set_cacheRef
                   (JsMap.set (cacheRef s) cacheKey
                      (mkEntry (result c) (timestamp c) (hitCount c + 1))) s in
        let s := setResult (Some (result c)) s in
        let s := setError None s in
        setLoading false s
    | None =>
        let timeSinceLastRequest := tNow - lastRequestTimeRef s in
        if timeSinceLastRequest <? MIN_REQUEST_INTERVAL
        then set_requestQueueRef true s
        else
          let s := set_pendingRequestRef true s in
          let s := setLoading true s in
          let s := setError None s in
          send (mkRequest (toString (Math_floor cost)) (toString rate)
                          (toString (Math_floor yrs)))
               (mkSuspended self cost rate yrs cacheKey) s
    end.

(** The [catch (err)] block. *)
Definition catch_block (err : Thrown) (s : State) : State :=
  let errorMessage :=
    match err with
    | ErrorObject message => message
    | OtherValue => "An error occurred"%string
    end in
  let s := setError (Some errorMessage) s in
  setLoading false s.

(** The [finally] block; [tRetry] is its [Date.now()]. *)
Definition finally_block (k : Suspended) (tRetry : Z) (s : State) : State :=
  let s := set_pendingRequestRef false s in
  if requestQueueRef s then
    let s := set_requestQueueRef false s in
    let retryTime := MIN_REQUEST_INTERVAL - (tRetry - lastRequestTimeRef s) in
    if retryTime >? 0 then setTimeout (closure k) tRetry retryTime s else s
  else s.

(** The payload made into a result, with the [||] defaults. *)
Definition normalize (k : Suspended) (data : Payload) : CalculationResult :=
  mkResult (or_num (data_current_cost data) (cost k))
           (or_num (data_inflation_rate data) (rate k))
           (or_num (data_no_years data) (yrs k))
           (or_num (data_future_amount data) 0).

(** The [try] block from the first [await] on, with the [catch] it may
    enter. *)
Definition try_block (k : Suspended) (outcome : FetchOutcome)
           (tSet tScan tLast : Z) (s : State) : State :=
  match outcome with
  | Rejected err => catch_block err s
  | Unparsed _ err => catch_block err s
  | Responded status data =>
      if (status =? 429) || strict_eq_num (data_status data) 429 then
        let s := setError (Some RATE_LIMIT_MESSAGE) s in
        let s := set_pendingRequestRef false s in
        setLoading false s
      else if negb (response_ok status)
              || (truthy_num (data_status data)
                  && negb (strict_eq_num (data_status data) 200)) then
        catch_block
          (ErrorObject (or_str (data_status_msg data)
                               "Failed to calculate future value"%string)) s
      else
        let calculationResult := normalize k data in
        let s := set_cacheRef
                   (cache_put (cacheRef s) (cacheKey k) calculationResult
                              tSet tScan) s in
        let s := setResult (Some calculationResult) s in
        let s := set_lastRequestTimeRef tLast s in
        setLoading false s
  end.

Fixpoint remove_nth {A : Type} (n : nat) (l : list A) : list A :=
  match n, l with
  | _, [] => []
  | O, _ :: rest => rest
  | S n', x :: rest => x :: remove_nth n' rest
  end.

(** The [n]-th suspended call runs to its end on [outcome]. The four clock
    readings are those of the cache entry, of the eviction scan, of
    [lastRequestTimeRef.current = Date.now()] and of the [finally] block. *)
Definition fetchCalculation_resume (s : State) (n : nat)
           (outcome : FetchOutcome) (tSet tScan tLast tRetry : Z) : State :=
  match nth_error (awaiting s) n with
  | None => s
  | Some k =>
      let s := set_awaiting (remove_nth n (awaiting s)) s in
      let s := try_block k outcome tSet tScan tLast s in
      finally_block k tRetry s
  end.

(** The outcomes that reach the end of the [try] block. *)
Definition is_success (outcome : FetchOutcome) : bool :=
  match outcome with
  | Rejected _ => false
  | Unparsed _ _ => false
  | Responded status data =>
      negb ((status =? 429) || strict_eq_num (data_status data) 429)
      && negb (negb (response_ok status)
               || (truthy_num (data_status data)
                   && negb (strict_eq_num (data_status data) 200)))
  end.

(** The outcomes that take the 429 branch. *)
Definition is_rate_limited (outcome : FetchOutcome) : bool :=
  match outcome with
  | Rejected _ => false
  | Unparsed _ _ => false
  | Responded status data =>
      (status =? 429) || strict_eq_num (data_status data) 429
  end.


(** ** Runs of the coordinator

    Whatever the widget does, the coordinator sees calls of
    [fetchCalculation] and settlements of suspended calls. *)
Inductive Event : Type :=
  | Call (self : Inputs) (cost rate yrs : Z) (tValid tNow : Z)
  | Settle (n : nat) (outcome : FetchOutcome) (tSet tScan tLast tRetry : Z).

Definition step (s : State) (e : Event) : State :=
  match e with
  | Call self cost rate yrs tValid tNow =>
      fetchCalculation s self cost rate yrs tValid tNow
  | Settle n outcome tSet tScan tLast tRetry =>
      fetchCalculation_resume s n outcome tSet tScan tLast tRetry
  end.

Definition run (s : State) (evs : list Event) : State :=
  fold_left step evs s.

(** The clock readings of an event, in the order they are taken. *)
Definition readings (e : Event) : list Z :=
  match e with
  | Call _ _ _ _ tValid tNow => [tValid; tNow]
  | Settle _ _ tSet tScan tLast tRetry => [tSet; tScan; tLast; tRetry]
  end.

(** [l] never goes below [t] nor back. *)
Fixpoint nondecreasing (t : Z) (l : list Z) : bool :=
  match l with
  | [] => true
  | x :: rest => (t <=? x) && nondecreasing x rest
  end.

(** The clock never goes back during [evs], started at [t]. *)
Definition monotone_clock (t : Z) (evs : list Event) : bool :=
  nondecreasing t (flat_map readings evs).

(** ** The component: inputs, effects and timers

    [fetchCalculation] is a [useCallback] over the three inputs, so a
    render whose inputs differ from the previous one holds a new callback,
    and both effects below list the callback among their dependencies. *)

Inductive Origin : Type :=
  | CallbackEffect   (* the effect on [mounted, fetchCalculation] *)
  | DebounceTimer    (* the timer of the effect on the inputs *)
  | RetryTimer.      (* the timer of the [finally] block *)

(** One call of [fetchCalculation] made by the component. *)
Record Trigger : Type := mkTrigger {
  origin : Origin;
  at_time : Z;
  args : Inputs
}.

(** The timer [debounceTimerRef.current] designates while it is live. *)
Record Debounce : Type := mkDebounce {
  due : Z;
  captured : Inputs
}.

Record Component : Type := mkComponent {
  inputs : Inputs;
  mounted : bool;
  debounceTimerRef : option Debounce;
  coordinator : State;
  triggers : list Trigger
}.

(** [useState(2500000)], [useState(6)], [useState(10)]. *)
Definition default_inputs : Inputs := mkInputs 2500000 6 10.

Definition first_render : Component :=
  mkComponent default_inputs false None initial [].

(** A call [fetchCalculation(currentCost, inflationRate, years)] made from
    the render whose inputs are [i], at clock [t]. *)
Definition invoke (o : Origin) (i : Inputs) (t : Z) (c : Component)
  : Component :=
  mkComponent (inputs c) (mounted c) (debounceTimerRef c)
    (fetchCalculation (coordinator c) i
       (currentCost i) (inflationRate i) (years i) t t)
    (triggers c ++ [mkTrigger o t i]).

(** The effect on [mounted, fetchCalculation]. *)
Definition callback_effect (t : Z) (c : Component) : Component :=
  if mounted c then invoke CallbackEffect (inputs c) t c else c.

(** [clearTimeout(debounceTimerRef.current)]. *)
Definition clearTimeout (c : Component) : Component :=
  mkComponent (inputs c) (mounted c) None (coordinator c) (triggers c).

(** The effect on the inputs, [mounted] and the callback. *)
Definition debounce_effect (t : Z) (c : Component) : Component :=
  if negb (mounted c) then c
  else
    let c := clearTimeout c in
    mkComponent (inputs c) (mounted c)
      (Some (mkDebounce (t + DEBOUNCE_DELAY) (inputs c)))
      (coordinator c) (triggers c).

(** Its cleanup, which exists when the previous run got past the
    [if (!mounted) return]. *)
Definition debounce_cleanup (prev : Component) (c : Component) : Component :=
  if mounted prev then clearTimeout c else c.

(** Did a dependency of the two effects change between two renders?
    The callback changes exactly when an input does. *)
Definition deps_changed (prev next : Component) : bool :=
  negb (Bool.eqb (mounted prev) (mounted next))
  || negb (Inputs_eqb (inputs prev) (inputs next)).

(** The commit of a render: cleanups first, then the effects in the
    order of the source. *)
Definition commit (prev next : Component) (t : Z) : Component :=
  if deps_changed prev next then
    debounce_effect t (callback_effect t (debounce_cleanup prev next))
  else next.

Definition with_inputs (i : Inputs) (c : Component) : Component :=
  mkComponent i (mounted c) (debounceTimerRef c) (coordinator c) (triggers c).

Definition setMounted (b : bool) (c : Component) : Component :=
  mkComponent (inputs c) b (debounceTimerRef c) (coordinator c) (triggers c).

Definition with_coordinator (s : State) (c : Component) : Component :=
  mkComponent (inputs c) (mounted c) (debounceTimerRef c) s (triggers c).

Inductive UiEvent : Type :=
  | Mount (t : Z)
  | SetInputs (t : Z) (next : Inputs)
  | DebounceFires (t : Z)
  | RetryFires (t : Z)
  | FetchSettles (t : Z) (outcome : FetchOutcome).

Definition ui_step (c : Component) (e : UiEvent) : Component :=
  match e with
  | Mount t =>
      (* the first commit runs the three effects with [mounted = false]:
         only [setMounted(true)] does something; the next commit follows *)
      if mounted c then c else commit c (setMounted true c) t
  | SetInputs t next =>
      (* [setCurrentCost], [setInflationRate], [setYears] *)
      commit c (with_inputs next c) t
  | DebounceFires t =>
      match debounceTimerRef c with
      | Some d =>
          if due d <=? t
          then invoke DebounceTimer (captured d) t (clearTimeout c)
          else c
      | None => c
      end
  | RetryFires t =>
      match timeouts (coordinator c) with
      | r :: rest =>
          if armed_at r + delay r <=? t
          then invoke RetryTimer (callback r) t
                 (with_coordinator (set_timeouts rest (coordinator c)) c)
          else c
      | [] => c
      end
  | FetchSettles t outcome =>
      with_coordinator
        (fetchCalculation_resume (coordinator c) 0 outcome t t t t) c
  end.

Definition ui_run (c : Component) (evs : list UiEvent) : Component :=
  fold_left ui_step evs c.

(** The calls made after the first [n] ones. *)
Definition triggers_after (n : nat) (c : Component) : list Trigger :=
  skipn n (triggers c).

(** The last reading taken during [evs], or [t] when there is none. *)
Definition clock_after (t : Z) (evs : list Event) : Z :=
  last (flat_map readings evs) t.

(** ** What holds of every state the coordinator reaches

    [t] is the latest clock reading taken so far. *)
Record Inv (t : Z) (s : State) : Prop := mkInv {
  inv_nodup : NoDup (JsMap.keys (cacheRef s));
  inv_size : JsMap.size (cacheRef s) <= MAX_CACHE_SIZE;
  inv_keys : forall k e, In (k, e) (cacheRef s) -> truthy_str k = true;
  inv_stamps :
    forall k e, In (k, e) (cacheRef s) -> timestamp e <= lastRequestTimeRef s;
  inv_busy :
    pendingRequestRef s = true -> exists k, awaiting s = [k];
  inv_idle : pendingRequestRef s = false -> awaiting s = [];
  inv_gate :
    pendingRequestRef s = true ->
    lastRequestTimeRef s + MIN_REQUEST_INTERVAL <= t;
  inv_error : pendingRequestRef s = true -> error s = None;
  inv_key_of :
    forall k, In k (awaiting s) ->
              cacheKey k = getCacheKey (cost k) (rate k) (yrs k)
}.

(** ** Scenarios

    The service answering in full for [y] years with amount [f]. *)
Definition answer (y f : Z) : FetchOutcome :=
  Responded 200
    (mkPayload (Some 2500000) (Some 6) (Some y) (Some f) (Some 200) None).

(** The widget mounts, its first request is answered, the timer set at
    mount fires. *)
Definition settled_mount : list UiEvent :=
  [Mount 10000; FetchSettles 10100 (answer 10 4476000); DebounceFires 10500].

(** A drag of the years slider, 10 to 11 to 12 to 13 within 100 ms, long
    after the mount, and the timer firing 500 ms after the last change. *)
Definition slider_drag : list UiEvent :=
  [SetInputs 20000 (mkInputs 2500000 6 11);
   SetInputs 20050 (mkInputs 2500000 6 12);
   SetInputs 20100 (mkInputs 2500000 6 13);
   DebounceFires 20600].

(** A change deferred by the rate gate, sent by its timer, and a further
    change while that request is in flight. *)
Definition change_during_fetch : list UiEvent :=
  [SetInputs 10600 (mkInputs 2500000 6 11);
   DebounceFires 11100;
   SetInputs 11150 (mkInputs 2500000 6 12);
   FetchSettles 11200 (answer 11 4745000);
   DebounceFires 11650;
   RetryFires 12200].

(** A call deferred by the rate gate, then a call that is sent and fails. *)
Definition deferred_then_failure : list Event :=
  [Call default_inputs 2500000 6 10 10000 10000;
   Settle 0 (answer 10 4476000) 10100 10100 10100 10100;
   Call (mkInputs 2500000 6 11) 2500000 6 11 10600 10600;
   Call (mkInputs 2500000 6 12) 2500000 6 12 12000 12000;
   Settle 0 (Rejected (ErrorObject "Failed to fetch")) 12100 12100 12100 12100].

(** [n] requests for the years [y], [y+1], ..., each sent at a multiple of
    2000 ms and answered 100 ms later. *)
Fixpoint successive (n : nat) (y : Z) : list Event :=
  match n with
  | O => []
  | S n' =>
      Call (mkInputs 2500000 6 y) 2500000 6 y (2000 * y) (2000 * y)
      :: Settle 0 (answer y (y * 1000))
           (2000 * y + 100) (2000 * y + 100) (2000 * y + 100) (2000 * y + 100)
      :: successive n' (y + 1)
  end.

(** The first call of a fresh widget, suspended on the network. *)
Definition first_call : Suspended :=
  mkSuspended default_inputs 2500000 6 10 (getCacheKey 2500000 6 10).

Definition in_flight : State :=
  run initial [Call default_inputs 2500000 6 10 10000 10000].

(** The same call answered: one entry in the cache, stamped 10100. *)
Definition answered : State :=
  run initial
    [Call default_inputs 2500000 6 10 10000 10000;
     Settle 0 (answer 10 4476000) 10100 10100 10100 10100].

(** A payload that leaves out the rate and the amount and echoes 0 years. *)
Definition sparse_payload : Payload :=
  mkPayload (Some 2500000) None (Some 0) None None None.

(** A payload that echoes a cost of 0. *)
Definition zero_cost_payload : Payload :=
  mkPayload (Some 0) (Some 6) (Some 10) (Some 4476000) (Some 200) None.

(** ** The report

    JavaScript strings are sequences of UTF-16 code units; the regular
    expression of the report has no [u] flag and works on code units. *)
Definition JsString : Type := list N.

(** The code units of a literal made of ASCII characters. *)
Definition units (s : string) : JsString :=
  map Ascii.N_of_ascii (list_ascii_of_string s).

(** [\s] of a regular expression, which is also what [trim()] removes:
    white space and line terminators. *)
Definition is_space (c : N) : bool :=
  ((9 <=? c) && (c <=? 13))%N
  || (c =? 32)%N || (c =? 160)%N || (c =? 5760)%N
  || ((8192 <=? c) && (c <=? 8202))%N
  || (c =? 8232)%N || (c =? 8233)%N || (c =? 8239)%N || (c =? 8287)%N
  || (c =? 12288)%N || (c =? 65279)%N.

(** The class [[a-zA-Z0-9Rs.%\s-]], before its negation. *)
Definition in_class (c : N) : bool :=
  ((97 <=? c) && (c <=? 122))%N
  || ((65 <=? c) && (c <=? 90))%N
  || ((48 <=? c) && (c <=? 57))%N
  || (c =? 82)%N || (c =? 115)%N || (c =? 46)%N || (c =? 37)%N
  || is_space c || (c =? 45)%N.

(** [.replace(/^[^a-zA-Z0-9Rs.%\s-]/g, "")]: anchored at the start, so at
    most the first code unit goes. *)
Definition strip_leading (s : JsString) : JsString :=
  match s with
  | [] => []
  | c :: rest => if in_class c then s else rest
  end.

Fixpoint trim_start (s : JsString) : JsString :=
  match s with
  | [] => []
  | c :: rest => if is_space c then trim_start rest else s
  end.

Fixpoint trim_end (s : JsString) : JsString :=
  match s with
  | [] => []
  | c :: rest =>
      match trim_end rest with
      | [] => if is_space c then [] else [c]
      | kept => c :: kept
      end
  end.

(** [.trim()]. *)
Definition trim (s : JsString) : JsString := trim_end (trim_start s).

(** [cellText], as written into a data row. *)
Definition cellText (s : JsString) : JsString := trim (strip_leading s).

(** What [downloadPDF] hands to jsPDF that depends on the data: the
    strings of its [doc.text] calls, in call order, and the name given to
    [doc.save]. Fonts, colours, rectangles and coordinates are left out. *)
Record Document : Type := mkDocument {
  texts : list JsString;
  saved_as : JsString
}.

(** The [doc.text] calls of one table: the header row as it is, then the
    data rows through [cellText]. *)
Definition table_texts (table : list (list JsString)) : list JsString :=
  match table with
  | [] => []
  | header :: rows => header ++ flat_map (map cellText) rows
  end.

Section Report.

(** [formatCurrency], a call of [Intl.NumberFormat("en-IN", ...)]. *)
Variable formatCurrency : Z -> JsString.

Definition inputData (i : Inputs) : list (list JsString) :=
  [[units "Name"; units "Value"];
   [units "Current Cost"; formatCurrency (currentCost i)];
   [units "Inflation (% per annum)"; units (toString (inflationRate i) ++ " %")];
   [units "Number of Years"; units (toString (years i) ++ " Years")]].

Definition resultData (i : Inputs) (r : CalculationResult)
  : list (list JsString) :=
  [[units "Name"; units "Value"];
   [units "Current Cost"; formatCurrency (currentCost i)];
   [units "Inflation (% per annum)"; units (toString (inflationRate i) ++ " %")];
   [units "Number of Years"; units (toString (years i) ++ " Years")];
   [units "Future Cost"; formatCurrency (future_amount r)]].

(** [downloadPDF], called with the inputs and the result of the render it
    belongs to; [None] is the early [return]. *)
Definition downloadPDF (i : Inputs) (r : option CalculationResult)
  : option Document :=
  match r with
  | None => None
  | Some r =>
      Some (mkDocument
              ([units "Fiscus Grow";
                units "Future Value Inflation Calculator";
                units "Your Input Values"]
               ++ table_texts (inputData i)
               ++ [units "Result"]
               ++ table_texts (resultData i r))
              (units "future-value-calculator-report.pdf"))
  end.

End Report.

(** [disabled={!result}] of the download button, negated. *)
Definition download_enabled (s : State) : bool :=
  match cur_result s with
  | Some _ => true
  | None => false
  end.

(** ** Views of a state *)

(** The cache without its hit counts: keys in iteration order, each with
    its result and its insertion time. *)
Definition without_hits (m : JsMap.t CacheEntry)
  : list (string * (CalculationResult * Z)) :=
  map (fun p => (fst p, (result (snd p), timestamp (snd p)))) m.

(** The insertion times held by the cache. *)
Definition stamps (m : JsMap.t CacheEntry) : list Z :=
  map (fun p => timestamp (snd p)) m.

(** A state without its retry timers. *)
Definition forget_timeouts (s : State) : State := set_timeouts [] s.

(** The clock reading of a widget event. *)
Definition ui_time (e : UiEvent) : Z :=
  match e with
  | Mount t => t
  | SetInputs t _ => t
  | DebounceFires t => t
  | RetryFires t => t
  | FetchSettles t _ => t
  end.

(** What the coordinator sees of a widget event: the call or the
    settlement it leads to, if any. *)
Definition seen_by_coordinator (c : Component) (e : UiEvent) : list Event :=
  match e with
  | Mount t =>
      if mounted c then []
      else [Call (inputs c) (currentCost (inputs c))
                 (inflationRate (inputs c)) (years (inputs c)) t t]
  | SetInputs t next =>
      if mounted c && negb (Inputs_eqb (inputs c) next)
      then [Call next (currentCost next) (inflationRate next) (years next) t t]
      else []
  | DebounceFires t =>
      match debounceTimerRef c with
      | Some d =>
          if due d <=? t
          then [Call (captured d) (currentCost (captured d))
                     (inflationRate (captured d)) (years (captured d)) t t]
          else []
      | None => []
      end
  | RetryFires t =>
      match timeouts (coordinator c) with
      | r :: _ =>
          if armed_at r + delay r <=? t
          then [Call (callback r) (currentCost (callback r))
                     (inflationRate (callback r)) (years (callback r)) t t]
          else []
      | [] => []
      end
  | FetchSettles t outcome => [Settle 0 outcome t t t t]
  end.

(** The coordinator events of a widget run, in order. *)
Fixpoint coordinator_trace (c : Component) (evs : list UiEvent) : list Event :=
  match evs with
  | [] => []
  | e :: rest =>
      seen_by_coordinator c e ++ coordinator_trace (ui_step c e) rest
  end.

(** ** Printed numbers *)

Definition is_digit (a : Ascii.ascii) : bool :=
  let n := Ascii.N_of_ascii a in ((48 <=? n) && (n <=? 57))%N.

Fixpoint all_digits (s : string) : bool :=
  match s with
  | EmptyString => true
  | String a rest => is_digit a && all_digits rest
  end.

(** A string that neither starts nor ends with white space. *)
Definition trimmed (s : JsString) : bool :=
  match s with
  | [] => true
  | c :: _ => negb (is_space c) && negb (is_space (last s c))
  end.

(** [Number.MAX_SAFE_INTEGER] and the integers a number holds exactly. *)
Definition MAX_SAFE_INTEGER : Z := 2 ^ 53 - 1.

Definition safe_integer (z : Z) : Prop :=
  - MAX_SAFE_INTEGER <= z <= MAX_SAFE_INTEGER.

(** A second request in flight: the first one answered and published, a
    call for 11 years turned away by the rate gate, a call for 12 years
    sent. *)
Definition second_call : Suspended :=
  mkSuspended (mkInputs 2500000 6 12) 2500000 6 12 (getCacheKey 2500000 6 12).

Definition second_flight : State :=
  run initial (firstn 4 deferred_then_failure).

(** A hundred entries stored, then a request for 200 years whose answer
    is stored after the clock was set back to 50, the scan reading
    [tScan]. *)
Definition clock_set_back (tScan : Z) : list Event :=
  successive 100 1
    ++ [Call (mkInputs 2500000 6 200) 2500000 6 200 300000 300000;
        Settle 0 (answer 200 1) 50 tScan tScan tScan].

(** * Properties *)

(** ** The map *)

Lemma get_set_same {V : Type} (m : JsMap.t V) (k : string) (v : V) :
  JsMap.get (JsMap.set m k v) k = Some v.
Proof.
  induction m as [|[k' v'] rest IH]; simpl.
  - now rewrite String.eqb_refl.
  - destruct (String.eqb k' k) eqn:E; simpl; rewrite E; auto.
Qed.

Lemma get_set_other {V : Type} (m : JsMap.t V) (k k0 : string) (v : V) :
  k0 <> k -> JsMap.get (JsMap.set m k v) k0 = JsMap.get m k0.
Proof.
  intros Hne. induction m as [|[k' v'] rest IH]; simpl.
  - destruct (String.eqb k k0) eqn:E; auto.
    apply String.eqb_eq in E. congruence.
  - destruct (String.eqb k' k) eqn:E; simpl.
    + apply String.eqb_eq in E. subst k'.
      destruct (String.eqb k k0) eqn:E0; auto.
      apply String.eqb_eq in E0. congruence.
    + now rewrite IH.
Qed.

Lemma get_delete_other {V : Type} (m : JsMap.t V) (k k0 : string) :
  k0 <> k -> JsMap.get (JsMap.delete m k) k0 = JsMap.get m k0.
Proof.
  intros Hne. induction m as [|[k' v'] rest IH]; simpl; auto.
  destruct (String.eqb k' k) eqn:E; simpl.
  - apply String.eqb_eq in E. subst k'.
    destruct (String.eqb k k0) eqn:E0; auto.
    apply String.eqb_eq in E0. congruence.
  - now rewrite IH.
Qed.

Lemma get_In {V : Type} (m : JsMap.t V) (k : string) (v : V) :
  JsMap.get m k = Some v -> In (k, v) m.
Proof.
  induction m as [|[k' v'] rest IH]; simpl; [discriminate|].
  destruct (String.eqb k' k) eqn:E.
  - apply String.eqb_eq in E. intros [= ->]. subst. now left.
  - intros H. right. auto.
Qed.

Lemma In_keys {V : Type} (m : JsMap.t V) (k : string) (v : V) :
  In (k, v) m -> In k (JsMap.keys m).
Proof. intros H. apply (in_map fst) in H. exact H. Qed.

Lemma In_get {V : Type} (m : JsMap.t V) (k : string) (v : V) :
  NoDup (JsMap.keys m) -> In (k, v) m -> JsMap.get m k = Some v.
Proof.
  induction m as [|[k' v'] rest IH]; simpl; [tauto|].
  intros Hnd [H|H].
  - injection H as -> ->. now rewrite String.eqb_refl.
  - inversion Hnd as [|? ? Hnotin Hnd']; subst.
    destruct (String.eqb k' k) eqn:E.
    + apply String.eqb_eq in E. subst k'.
      exfalso. apply Hnotin. eapply In_keys; eauto.
    + auto.
Qed.

Lemma In_set {V : Type} (m : JsMap.t V) (k k0 : string) (v v0 : V) :
  In (k0, v0) (JsMap.set m k v) -> (k0, v0) = (k, v) \/ In (k0, v0) m.
Proof.
  induction m as [|[k' v'] rest IH]; simpl.
  - intros [H|[]]. left. now symmetry.
  - destruct (String.eqb k' k) eqn:E; simpl.
    + apply String.eqb_eq in E. subst k'.
      intros [H|H]; [left; now symmetry | right; now right].
    + intros [H|H]; [right; now left|].
      destruct (IH H); [now left | right; now right].
Qed.

Lemma keys_set {V : Type} (m : JsMap.t V) (k : string) (v : V) :
  JsMap.keys (JsMap.set m k v)
  = match JsMap.get m k with
    | Some _ => JsMap.keys m
    | None => JsMap.keys m ++ [k]
    end.
Proof.
  induction m as [|[k' v'] rest IH]; simpl; auto.
  destruct (String.eqb k' k) eqn:E; simpl; auto.
  unfold JsMap.keys in *. rewrite IH.
  destruct (JsMap.get rest k); auto.
Qed.

Lemma get_None_keys {V : Type} (m : JsMap.t V) (k : string) :
  JsMap.get m k = None -> ~ In k (JsMap.keys m).
Proof.
  induction m as [|[k' v'] rest IH]; simpl; auto.
  destruct (String.eqb k' k) eqn:E; [discriminate|].
  intros H [H1|H1].
  - subst. rewrite String.eqb_refl in E. discriminate.
  - now apply IH.
Qed.

Lemma NoDup_set {V : Type} (m : JsMap.t V) (k : string) (v : V) :
  NoDup (JsMap.keys m) -> NoDup (JsMap.keys (JsMap.set m k v)).
Proof.
  intros Hnd. rewrite keys_set.
  destruct (JsMap.get m k) eqn:E; auto.
  apply NoDup_rev in Hnd.
  rewrite <- (rev_involutive (JsMap.keys m ++ [k])).
  apply NoDup_rev. rewrite rev_app_distr. simpl.
  constructor; auto.
  rewrite <- in_rev. now apply get_None_keys.
Qed.

Lemma size_set {V : Type} (m : JsMap.t V) (k : string) (v : V) :
  JsMap.size (JsMap.set m k v)
  = match JsMap.get m k with
    | Some _ => JsMap.size m
    | None => JsMap.size m + 1
    end.
Proof.
  unfold JsMap.size.
  replace (List.length (JsMap.set m k v))
    with (List.length (JsMap.keys (JsMap.set m k v)))
    by (unfold JsMap.keys; apply length_map).
  rewrite keys_set. unfold JsMap.keys.
  destruct (JsMap.get m k).
  - now rewrite length_map.
  - rewrite length_app, length_map. simpl. lia.
Qed.

Lemma In_delete {V : Type} (m : JsMap.t V) (k k0 : string) (v0 : V) :
  In (k0, v0) (JsMap.delete m k) -> In (k0, v0) m.
Proof.
  induction m as [|[k' v'] rest IH]; simpl; auto.
  destruct (String.eqb k' k); simpl; intuition.
Qed.

Lemma NoDup_delete {V : Type} (m : JsMap.t V) (k : string) :
  NoDup (JsMap.keys m) -> NoDup (JsMap.keys (JsMap.delete m k)).
Proof.
  induction m as [|[k' v'] rest IH]; simpl; auto.
  intros Hnd. inversion Hnd as [|? ? Hnotin Hnd']; subst.
  destruct (String.eqb k' k); simpl; auto.
  constructor; auto.
  intros Hin. apply Hnotin.
  unfold JsMap.keys in Hin. apply in_map_iff in Hin.
  destruct Hin as [[k1 v1] [Hk Hin]]. simpl in Hk. subst k1.
  eapply In_keys. eapply In_delete. eauto.
Qed.

Lemma length_delete {V : Type} (m : JsMap.t V) (k : string) (v : V) :
  In (k, v) m -> S (List.length (JsMap.delete m k)) = List.length m.
Proof.
  induction m as [|[k' v'] rest IH]; simpl; [tauto|].
  intros [H|H].
  - injection H as -> ->. now rewrite String.eqb_refl.
  - destruct (String.eqb k' k); [reflexivity|].
    simpl. now rewrite IH.
Qed.

Lemma size_delete {V : Type} (m : JsMap.t V) (k : string) (v : V) :
  In (k, v) m -> JsMap.size (JsMap.delete m k) = JsMap.size m - 1.
Proof.
  intros H. unfold JsMap.size. rewrite <- (length_delete m k v H). lia.
Qed.

Lemma In_set_other {V : Type} (m : JsMap.t V) (k k0 : string) (v v0 : V) :
  k0 <> k -> In (k0, v0) m -> In (k0, v0) (JsMap.set m k v).
Proof.
  intros Hne. induction m as [|[k' v'] rest IH]; simpl; [tauto|].
  intros [H|H].
  - injection H as -> ->.
    destruct (String.eqb k0 k) eqn:E; [|now left].
    apply String.eqb_eq in E. congruence.
  - destruct (String.eqb k' k); right; auto.
Qed.

(** ** The eviction scan *)

Lemma oldest_scan_keeps (l : list (string * CacheEntry))
      (oldestKey : option string) (oldestTime : Z) :
  (forall k e, In (k, e) l -> oldestTime <= timestamp e) ->
  oldest_scan l oldestKey oldestTime = oldestKey.
Proof.
  revert oldestKey oldestTime.
  induction l as [|[k0 e0] rest IH]; intros ok ot Hall; simpl; auto.
  assert (H0 : ot <= timestamp e0) by (apply (Hall k0); now left).
  destruct (timestamp e0 <? ot) eqn:E; [apply Z.ltb_lt in E; lia|].
  apply IH. intros k e Hin. apply (Hall k). now right.
Qed.

Lemma oldest_scan_min (l : list (string * CacheEntry))
      (oldestKey : option string) (oldestTime : Z) :
  (exists k e, In (k, e) l /\ timestamp e < oldestTime) ->
  exists k e,
    oldest_scan l oldestKey oldestTime = Some k
    /\ In (k, e) l
    /\ timestamp e < oldestTime
    /\ forall k' e', In (k', e') l -> timestamp e <= timestamp e'.
Proof.
  revert oldestKey oldestTime.
  induction l as [|[k0 e0] rest IH]; intros ok ot (k1 & e1 & Hin & Hlt).
  - destruct Hin.
  - simpl. destruct (timestamp e0 <? ot) eqn:E.
    + apply Z.ltb_lt in E.
      destruct (existsb (fun p => timestamp (snd p) <? timestamp e0) rest)
        eqn:Ex.
      * apply existsb_exists in Ex. destruct Ex as ([k2 e2] & Hin2 & Hlt2).
        simpl in Hlt2. apply Z.ltb_lt in Hlt2.
        destruct (IH (Some k0) (timestamp e0)) as (k & e & Hs & Hi & Hl & Hm).
        { exists k2, e2. auto. }
        exists k, e. repeat split; auto; try lia.
        intros k' e' [H|H]; [injection H as <- <-; lia | eauto].
      * assert (Hall : forall k e, In (k, e) rest ->
                                   timestamp e0 <= timestamp e).
        { intros k e Hi.
          destruct (Z_lt_le_dec (timestamp e) (timestamp e0)) as [Hc|]; auto.
          assert (existsb (fun p => timestamp (snd p) <? timestamp e0) rest
                  = true); [|congruence].
          apply existsb_exists. exists (k, e). split; auto.
          simpl. now apply Z.ltb_lt. }
        rewrite oldest_scan_keeps by exact Hall.
        exists k0, e0. repeat split; auto.
        intros k' e' [H|H]; [injection H as <- <-; lia | eauto].
    + apply Z.ltb_ge in E.
      destruct Hin as [H|Hin]; [injection H as <- <-; lia|].
      destruct (IH ok ot) as (k & e & Hs & Hi & Hl & Hm).
      { exists k1, e1. auto. }
      exists k, e. repeat split; auto.
      intros k' e' [H|H]; [injection H as <- <-; lia | eauto].
Qed.

(** ** Insertion with eviction *)

Section CachePut.

Variables (cache : JsMap.t CacheEntry) (key : string)
          (r : CalculationResult) (tSet tScan : Z).

Local Abbreviation inserted := (JsMap.set cache key (mkEntry r tSet 1)).

Hypothesis Hnodup : NoDup (JsMap.keys cache).
Hypothesis Hsize : JsMap.size cache <= MAX_CACHE_SIZE.
Hypothesis Hkeys : forall k e, In (k, e) cache -> truthy_str k = true.
Hypothesis Hold : forall k e, In (k, e) cache -> timestamp e < tSet.
Hypothesis Hclock : tSet <= tScan.

Lemma cache_put_fits :
  JsMap.size inserted <= MAX_CACHE_SIZE ->
  cache_put cache key r tSet tScan = inserted.
Proof.
  intros H. unfold cache_put.
  destruct (JsMap.size inserted >? MAX_CACHE_SIZE) eqn:E; auto.
  apply Z.gtb_lt in E. lia.
Qed.

Lemma cache_put_evicts :
  MAX_CACHE_SIZE < JsMap.size inserted ->
  exists oldestKey oldest,
    oldestKey <> key
    /\ JsMap.get inserted oldestKey = Some oldest
    /\ (forall k' e',
           JsMap.get inserted k' = Some e' ->
           timestamp oldest <= timestamp e')
    /\ cache_put cache key r tSet tScan = JsMap.delete inserted oldestKey
    /\ JsMap.size (cache_put cache key r tSet tScan)
       = JsMap.size inserted - 1.
Proof.
  intros Hbig.
  assert (Hnd : NoDup (JsMap.keys inserted)) by now apply NoDup_set.
  assert (Hfresh : JsMap.get cache key = None).
  { rewrite size_set in Hbig.
    destruct (JsMap.get cache key); auto. lia. }
  assert (Hsome : exists k0 e0, In (k0, e0) cache).
  { rewrite size_set, Hfresh in Hbig.
    unfold JsMap.size, MAX_CACHE_SIZE in *.
    destruct cache as [|[k0 e0] rest]; [simpl in Hbig; lia|].
    exists k0, e0. now left. }
  destruct Hsome as (k0 & e0 & Hin0).
  assert (Hk0 : k0 <> key).
  { intros ->. apply (get_None_keys _ _ Hfresh). eapply In_keys; eauto. }
  destruct (oldest_scan_min (JsMap.entries inserted) None tScan)
    as (k & e & Hscan & Hin & Hlt & Hmin).
  { exists k0, e0. split.
    - now apply In_set_other.
    - specialize (Hold _ _ Hin0). lia. }
  assert (Hne : k <> key).
  { intros ->.
    assert (Hnew : JsMap.get inserted key = Some e) by now apply In_get.
    rewrite get_set_same in Hnew.
    injection Hnew as <-. simpl in Hmin.
    specialize (Hmin k0 e0 (In_set_other _ _ _ _ _ Hk0 Hin0)).
    specialize (Hold _ _ Hin0). simpl in Hmin. lia. }
  assert (Htruthy : truthy_str k = true).
  { destruct (In_set _ _ _ _ _ Hin) as [H|H]; [congruence|eauto]. }
  assert (Heq : cache_put cache key r tSet tScan = JsMap.delete inserted k).
  { unfold cache_put.
    destruct (JsMap.size inserted >? MAX_CACHE_SIZE) eqn:E.
    - now rewrite Hscan, Htruthy.
    - rewrite Z.gtb_ltb in E. apply Z.ltb_ge in E. lia. }
  exists k, e. repeat split; auto.
  - now apply In_get.
  - intros k' e' Hget. apply (Hmin k'). now apply get_In.
  - rewrite Heq. now apply size_delete with (v := e).
Qed.

Lemma cache_put_size :
  JsMap.size (cache_put cache key r tSet tScan) <= MAX_CACHE_SIZE.
Proof.
  destruct (Z_le_gt_dec (JsMap.size inserted) MAX_CACHE_SIZE) as [H|H].
  - now rewrite cache_put_fits.
  - destruct cache_put_evicts as (k & e & _ & _ & _ & _ & Hs); [lia|].
    rewrite Hs. rewrite size_set.
    destruct (JsMap.get cache key); lia.
Qed.

Lemma cache_put_holds_new :
  JsMap.get (cache_put cache key r tSet tScan) key
  = Some (mkEntry r tSet 1).
Proof.
  destruct (Z_le_gt_dec (JsMap.size inserted) MAX_CACHE_SIZE) as [H|H].
  - rewrite cache_put_fits by exact H. apply get_set_same.
  - destruct cache_put_evicts as (k & e & Hne & _ & _ & Heq & _); [lia|].
    rewrite Heq, get_delete_other by congruence. apply get_set_same.
Qed.

Lemma cache_put_In (k : string) (e : CacheEntry) :
  In (k, e) (cache_put cache key r tSet tScan) ->
  (k, e) = (key, mkEntry r tSet 1) \/ In (k, e) cache.
Proof.
  destruct (Z_le_gt_dec (JsMap.size inserted) MAX_CACHE_SIZE) as [H|H].
  - rewrite cache_put_fits by exact H. apply In_set.
  - destruct cache_put_evicts as (k1 & e1 & _ & _ & _ & Heq & _); [lia|].
    rewrite Heq. intros Hin. apply In_delete in Hin. now apply In_set in Hin.
Qed.

Lemma cache_put_NoDup :
  NoDup (JsMap.keys (cache_put cache key r tSet tScan)).
Proof.
  destruct (Z_le_gt_dec (JsMap.size inserted) MAX_CACHE_SIZE) as [H|H].
  - rewrite cache_put_fits by exact H. now apply NoDup_set.
  - destruct cache_put_evicts as (k1 & e1 & _ & _ & _ & Heq & _); [lia|].
    rewrite Heq. apply NoDup_delete. now apply NoDup_set.
Qed.

End CachePut.

(** ** The blocks of [fetchCalculation] *)

Lemma valid_entry_Some (cached : option CacheEntry) (now : Z)
      (c : CacheEntry) :
  valid_entry cached now = Some c ->
  cached = Some c /\ isCacheValid now (timestamp c) = true.
Proof.
  unfold valid_entry. destruct cached as [c0|]; [|discriminate].
  destruct (isCacheValid now (timestamp c0)) eqn:E; [|discriminate].
  intros [= <-]. now split.
Qed.

Lemma getCacheKey_truthy (c r y : Z) : truthy_str (getCacheKey c r y) = true.
Proof.
  unfold getCacheKey, truthy_str.
  destruct (toString c); reflexivity.
Qed.

Lemma finally_block_fields (k : Suspended) (tRetry : Z) (s : State) :
  cacheRef (finally_block k tRetry s) = cacheRef s
  /\ lastRequestTimeRef (finally_block k tRetry s) = lastRequestTimeRef s
  /\ pendingRequestRef (finally_block k tRetry s) = false
  /\ requestQueueRef (finally_block k tRetry s) = false
  /\ cur_result (finally_block k tRetry s) = cur_result s
  /\ loading (finally_block k tRetry s) = loading s
  /\ error (finally_block k tRetry s) = error s
  /\ requests (finally_block k tRetry s) = requests s
  /\ awaiting (finally_block k tRetry s) = awaiting s.
Proof.
  unfold finally_block. simpl.
  destruct (requestQueueRef s) eqn:Q; simpl.
  - destruct (_ >? 0); simpl; repeat split; reflexivity.
  - repeat split; auto.
Qed.

(** A settlement that is not a success touches neither the cache, nor the
    clock of the rate gate, nor the published result. *)
Lemma try_block_failure (k : Suspended) (outcome : FetchOutcome)
      (tSet tScan tLast : Z) (s : State) :
  is_success outcome = false ->
  cacheRef (try_block k outcome tSet tScan tLast s) = cacheRef s
  /\ lastRequestTimeRef (try_block k outcome tSet tScan tLast s)
     = lastRequestTimeRef s
  /\ cur_result (try_block k outcome tSet tScan tLast s) = cur_result s
  /\ loading (try_block k outcome tSet tScan tLast s) = false
  /\ error (try_block k outcome tSet tScan tLast s) <> None
  /\ requests (try_block k outcome tSet tScan tLast s) = requests s
  /\ awaiting (try_block k outcome tSet tScan tLast s) = awaiting s
  /\ requestQueueRef (try_block k outcome tSet tScan tLast s)
     = requestQueueRef s
  /\ timeouts (try_block k outcome tSet tScan tLast s) = timeouts s.
Proof.
  destruct outcome as [err|status0 err|status data]; simpl.
  - intros _. destruct err; simpl; repeat split; congruence.
  - intros _. destruct err; simpl; repeat split; congruence.
  - destruct ((status =? 429) || strict_eq_num (data_status data) 429);
      simpl; [intros _; repeat split; congruence|].
    destruct (negb (response_ok status)
              || truthy_num (data_status data)
                 && negb (strict_eq_num (data_status data) 200));
      simpl; [intros _; repeat split; congruence | discriminate].
Qed.

Lemma try_block_success (k : Suspended) (status : Z) (data : Payload)
      (tSet tScan tLast : Z) (s : State) :
  is_success (Responded status data) = true ->
  try_block k (Responded status data) tSet tScan tLast s
  = setLoading false
      (set_lastRequestTimeRef tLast
         (setResult (Some (normalize k data))
            (set_cacheRef
               (cache_put (cacheRef s) (cacheKey k) (normalize k data)
                          tSet tScan) s))).
Proof.
  simpl.
  destruct ((status =? 429) || strict_eq_num (data_status data) 429);
    simpl; [discriminate|].
  destruct (negb (response_ok status)
            || truthy_num (data_status data)
               && negb (strict_eq_num (data_status data) 200));
    simpl; [discriminate | reflexivity].
Qed.

(** ** The invariant *)

Lemma Inv_initial (t : Z) : Inv t initial.
Proof.
  constructor; simpl; try discriminate; try tauto.
  constructor.
Qed.

Lemma Inv_later (t t' : Z) (s : State) : t <= t' -> Inv t s -> Inv t' s.
Proof.
  intros Hle [H1 H2 H3 H4 H5 H6 H7 H8 H9].
  constructor; auto. intros Hp. specialize (H7 Hp). lia.
Qed.

Lemma Inv_call (t : Z) (s : State) (self : Inputs) (cost rate yrs : Z)
      (tValid tNow : Z) :
  Inv t s -> t <= tValid -> tValid <= tNow ->
  Inv tNow (fetchCalculation s self cost rate yrs tValid tNow).
Proof.
  intros HI Hv Hn.
  assert (HI' : Inv tNow s) by (apply (Inv_later t); [lia | exact HI]).
  unfold fetchCalculation.
  destruct (pendingRequestRef s) eqn:P; [exact HI'|].
  destruct HI' as [H1 H2 H3 H4 H5 H6 H7 H8 H9].
  assert (Hsend :
    (tNow - lastRequestTimeRef s <? MIN_REQUEST_INTERVAL) = false ->
    Inv tNow
      (send (mkRequest (toString (Math_floor cost)) (toString rate)
                       (toString (Math_floor yrs)))
            (mkSuspended self cost rate yrs (getCacheKey cost rate yrs))
            (setError None (setLoading true (set_pendingRequestRef true s))))).
  { intros G. apply Z.ltb_ge in G.
    constructor; simpl; auto; try discriminate.
    - intros _. rewrite (H6 P). simpl. eauto.
    - intros _. unfold MIN_REQUEST_INTERVAL in *. lia.
    - intros k. rewrite (H6 P). simpl. intros [<-|[]]. reflexivity. }
  assert (Hqueue : Inv tNow (set_requestQueueRef true s)).
  { constructor; simpl; auto. }
  destruct (valid_entry _ tValid) as [c|] eqn:V.
  - apply valid_entry_Some in V. destruct V as [G _]. apply get_In in G.
    constructor; simpl; auto; try congruence.
    + now apply NoDup_set.
    + rewrite size_set.
      rewrite (In_get _ _ _ H1 G). exact H2.
    + intros k e Hin. apply In_set in Hin. destruct Hin as [E|Hin]; eauto.
      injection E as -> _. apply getCacheKey_truthy.
    + intros k e Hin. apply In_set in Hin. destruct Hin as [E|Hin]; eauto.
      injection E as _ ->. simpl. eauto.
  - destruct (_ <? MIN_REQUEST_INTERVAL) eqn:G2; auto.
Qed.

Lemma Inv_settle (t : Z) (s : State) (n : nat) (outcome : FetchOutcome)
      (tSet tScan tLast tRetry : Z) :
  Inv t s -> t <= tSet -> tSet <= tScan -> tScan <= tLast -> tLast <= tRetry ->
  Inv tRetry (fetchCalculation_resume s n outcome tSet tScan tLast tRetry).
Proof.
  intros HI H01 H12 H23 H34.
  unfold fetchCalculation_resume.
  destruct (nth_error (awaiting s) n) as [k|] eqn:N;
    [|apply (Inv_later t); [lia | exact HI]].
  destruct HI as [H1 H2 H3 H4 H5 H6 H7 H8 H9].
  assert (P : pendingRequestRef s = true).
  { destruct (pendingRequestRef s); auto.
    rewrite H6 in N by reflexivity. destruct n; discriminate. }
  destruct (H5 P) as (k0 & Hk0). rewrite Hk0 in N.
  assert (n = 0%nat) by (destruct n as [|[|n]]; auto; discriminate).
  subst n. injection N as ->. rewrite Hk0. simpl remove_nth.
  assert (Hkey : truthy_str (cacheKey k) = true).
  { rewrite H9 by (rewrite Hk0; now left). apply getCacheKey_truthy. }
  specialize (H7 P). unfold MIN_REQUEST_INTERVAL in H7.
  remember (try_block k outcome tSet tScan tLast (set_awaiting [] s)) as s1
    eqn:Hs1.
  destruct (finally_block_fields k tRetry s1)
    as (F1 & F2 & F3 & F4 & F5 & F6 & F7 & F8 & F9).
  destruct (is_success outcome) eqn:S.
  - destruct outcome as [err|status0 err|status data];
      [discriminate | discriminate |].
    rewrite (try_block_success _ _ _ _ _ _ _ S) in Hs1.
    assert (E1 : cacheRef s1
                 = cache_put (cacheRef s) (cacheKey k) (normalize k data)
                             tSet tScan) by (subst s1; reflexivity).
    assert (E2 : lastRequestTimeRef s1 = tLast) by (subst s1; reflexivity).
    assert (E9 : awaiting s1 = []) by (subst s1; reflexivity).
    assert (Hold : forall k' e, In (k', e) (cacheRef s) -> timestamp e < tSet).
    { intros k' e Hin. specialize (H4 _ _ Hin). lia. }
    constructor; rewrite ?F1, ?F2, ?F3, ?F9, ?E1, ?E2, ?E9;
      try discriminate; auto.
    + now apply cache_put_NoDup.
    + apply cache_put_size; auto.
    + intros k' e Hin. apply cache_put_In in Hin; auto.
      destruct Hin as [E|Hin]; eauto. congruence.
    + intros k' e Hin. apply cache_put_In in Hin; auto.
      destruct Hin as [E|Hin].
      * injection E as _ ->. simpl. lia.
      * specialize (H4 _ _ Hin). lia.
    + simpl. tauto.
  - destruct (try_block_failure k outcome tSet tScan tLast
                (set_awaiting [] s) S)
      as (T1 & T2 & _ & _ & _ & _ & T7 & _).
    rewrite <- Hs1 in T1, T2, T7. simpl in T1, T2, T7.
    constructor; rewrite ?F1, ?F2, ?F3, ?F9, ?T1, ?T2, ?T7;
      try discriminate; auto.
    simpl. tauto.
Qed.

(** ** Runs *)

Lemma last_cons_default (x d d' : Z) (l : list Z) :
  last (x :: l) d = last (x :: l) d'.
Proof.
  revert x. induction l as [|y l IH]; intros x; [reflexivity|].
  change (last (y :: l) d = last (y :: l) d'). apply IH.
Qed.

Lemma last_cons (x d : Z) (l : list Z) : last (x :: l) d = last l x.
Proof.
  destruct l as [|y l]; [reflexivity|].
  change (last (y :: l) d = last (y :: l) x). apply last_cons_default.
Qed.

Lemma nondecreasing_app (t : Z) (l1 l2 : list Z) :
  nondecreasing t (l1 ++ l2)
  = nondecreasing t l1 && nondecreasing (last l1 t) l2.
Proof.
  revert t. induction l1 as [|x l1 IH]; intros t; [reflexivity|].
  cbn [app nondecreasing]. rewrite IH, andb_assoc, last_cons. reflexivity.
Qed.

Lemma last_app_default (t : Z) (l1 l2 : list Z) :
  last (l1 ++ l2) t = last l2 (last l1 t).
Proof.
  revert t. induction l1 as [|x l1 IH]; intros t; [reflexivity|].
  cbn [app]. now rewrite !last_cons, IH.
Qed.

Lemma Inv_step (t : Z) (s : State) (e : Event) :
  Inv t s -> nondecreasing t (readings e) = true ->
  Inv (last (readings e) t) (step s e).
Proof.
  intros HI Hm. destruct e as [self c r y tValid tNow|n o tSet tScan tLast tRetry];
    simpl in Hm |- *.
  - repeat (apply andb_prop in Hm; destruct Hm as [? Hm]).
    apply (Inv_call t); auto; now apply Z.leb_le.
  - repeat (apply andb_prop in Hm; destruct Hm as [? Hm]).
    apply (Inv_settle t); auto; now apply Z.leb_le.
Qed.

Lemma Inv_run (evs : list Event) (t : Z) (s : State) :
  Inv t s -> monotone_clock t evs = true ->
  Inv (clock_after t evs) (run s evs).
Proof.
  revert t s. induction evs as [|e evs IH]; intros t s HI Hm; [exact HI|].
  unfold monotone_clock, clock_after in *. cbn [flat_map run fold_left] in *.
  rewrite nondecreasing_app in Hm. apply andb_prop in Hm. destruct Hm as [H1 H2].
  rewrite last_app_default. apply IH; auto. now apply Inv_step.
Qed.

Lemma run_app (s : State) (evs1 evs2 : list Event) :
  run s (evs1 ++ evs2) = run (run s evs1) evs2.
Proof. apply fold_left_app. Qed.

Lemma monotone_clock_app (t : Z) (evs1 evs2 : list Event) :
  monotone_clock t (evs1 ++ evs2)
  = monotone_clock t evs1 && monotone_clock (clock_after t evs1) evs2.
Proof.
  unfold monotone_clock, clock_after.
  now rewrite flat_map_app, nondecreasing_app.
Qed.

(** The in-flight flag and the suspended calls agree, whatever the clock
    does: this part of the invariant needs no hypothesis on the readings. *)
Lemma guard_call (s : State) (self : Inputs) (c r y tValid tNow : Z) :
  (pendingRequestRef s = true -> exists k, awaiting s = [k]) ->
  (pendingRequestRef s = false -> awaiting s = []) ->
  let s' := fetchCalculation s self c r y tValid tNow in
  (pendingRequestRef s' = true -> exists k, awaiting s' = [k])
  /\ (pendingRequestRef s' = false -> awaiting s' = []).
Proof.
  intros Hb Hi. cbv zeta. unfold fetchCalculation.
  destruct (pendingRequestRef s) eqn:P;
    [rewrite P; split; [auto | discriminate]|].
  specialize (Hi eq_refl).
  destruct (valid_entry _ tValid) as [e|];
    try destruct (_ <? MIN_REQUEST_INTERVAL);
    simpl; rewrite ?Hi, ?P; split; intros; try discriminate; simpl; eauto.
Qed.

Lemma guard_settle (s : State) (n : nat) (outcome : FetchOutcome)
      (tSet tScan tLast tRetry : Z) :
  (pendingRequestRef s = true -> exists k, awaiting s = [k]) ->
  (pendingRequestRef s = false -> awaiting s = []) ->
  let s' := fetchCalculation_resume s n outcome tSet tScan tLast tRetry in
  (pendingRequestRef s' = true -> exists k, awaiting s' = [k])
  /\ (pendingRequestRef s' = false -> awaiting s' = []).
Proof.
  intros Hb Hi. cbv zeta. unfold fetchCalculation_resume.
  destruct (nth_error (awaiting s) n) as [k|] eqn:N; [|now split].
  assert (P : pendingRequestRef s = true).
  { destruct (pendingRequestRef s); auto.
    rewrite Hi in N by reflexivity. destruct n; discriminate. }
  destruct (Hb P) as (k0 & Hk0). rewrite Hk0 in N |- *.
  assert (n = 0%nat) by (destruct n as [|[|n]]; auto; discriminate).
  subst n. simpl remove_nth.
  remember (try_block k outcome tSet tScan tLast (set_awaiting [] s)) as s1
    eqn:Hs1.
  destruct (finally_block_fields k tRetry s1)
    as (_ & _ & F3 & _ & _ & _ & _ & _ & F9).
  cbv zeta. rewrite F3, F9. split; [discriminate|intros _].
  destruct (is_success outcome) eqn:S.
  - destruct outcome as [err|status0 err|status data];
      [discriminate | discriminate |].
    rewrite (try_block_success _ _ _ _ _ _ _ S) in Hs1. now subst s1.
  - destruct (try_block_failure k outcome tSet tScan tLast
                (set_awaiting [] s) S) as (_ & _ & _ & _ & _ & _ & T7 & _).
    now rewrite <- Hs1 in T7.
Qed.

Lemma guard_run (evs : list Event) (s : State) :
  (pendingRequestRef s = true -> exists k, awaiting s = [k]) ->
  (pendingRequestRef s = false -> awaiting s = []) ->
  (pendingRequestRef (run s evs) = true -> exists k, awaiting (run s evs) = [k])
  /\ (pendingRequestRef (run s evs) = false -> awaiting (run s evs) = []).
Proof.
  revert s. induction evs as [|e evs IH]; intros s Hb Hi; [now split|].
  cbn [run fold_left].
  assert (G : (pendingRequestRef (step s e) = true ->
               exists k, awaiting (step s e) = [k])
              /\ (pendingRequestRef (step s e) = false ->
                  awaiting (step s e) = [])).
  { destruct e; simpl; [apply guard_call | apply guard_settle]; auto. }
  destruct G as [G1 G2]. now apply IH.
Qed.

(** ** Settlements, field by field *)

Lemma resume_success (s : State) (n : nat) (k : Suspended) (status : Z)
      (data : Payload) (tSet tScan tLast tRetry : Z) :
  nth_error (awaiting s) n = Some k ->
  is_success (Responded status data) = true ->
  let s' := fetchCalculation_resume s n (Responded status data)
              tSet tScan tLast tRetry in
  cacheRef s'
  = cache_put (cacheRef s) (cacheKey k) (normalize k data) tSet tScan
  /\ lastRequestTimeRef s' = tLast
  /\ cur_result s' = Some (normalize k data)
  /\ error s' = error s
  /\ loading s' = false
  /\ pendingRequestRef s' = false.
Proof.
  intros N S. cbv zeta. unfold fetchCalculation_resume. rewrite N.
  rewrite (try_block_success _ _ _ _ _ _ _ S).
  match goal with |- context [finally_block k tRetry ?x] =>
    destruct (finally_block_fields k tRetry x)
      as (F1 & F2 & F3 & F4 & F5 & F6 & F7 & F8 & F9)
  end.
  rewrite F1, F2, F3, F5, F6, F7. repeat split; reflexivity.
Qed.

Lemma resume_failure (s : State) (n : nat) (k : Suspended)
      (outcome : FetchOutcome) (tSet tScan tLast tRetry : Z) :
  nth_error (awaiting s) n = Some k ->
  is_success outcome = false ->
  let s' := fetchCalculation_resume s n outcome tSet tScan tLast tRetry in
  cacheRef s' = cacheRef s
  /\ lastRequestTimeRef s' = lastRequestTimeRef s
  /\ cur_result s' = cur_result s
  /\ loading s' = false
  /\ error s' <> None
  /\ pendingRequestRef s' = false.
Proof.
  intros N S. cbv zeta. unfold fetchCalculation_resume. rewrite N.
  destruct (try_block_failure k outcome tSet tScan tLast
              (set_awaiting (remove_nth n (awaiting s)) s) S)
    as (T1 & T2 & T3 & T4 & T5 & _).
  match goal with |- context [finally_block k tRetry ?x] =>
    destruct (finally_block_fields k tRetry x)
      as (F1 & F2 & F3 & F4 & F5 & F6 & F7 & F8 & F9)
  end.
  rewrite F1, F2, F3, F5, F6, F7, T1, T2, T3, T4. repeat split; auto.
Qed.

(** ** De-duplication *)

Lemma call_while_pending (s : State) (self : Inputs) (c r y tValid tNow : Z) :
  pendingRequestRef s = true ->
  fetchCalculation s self c r y tValid tNow = s.
Proof. intros P. unfold fetchCalculation. now rewrite P. Qed.

Lemma call_sends_one (s : State) (self : Inputs) (c r y tValid tNow : Z) :
  pendingRequestRef s = false ->
  pendingRequestRef (fetchCalculation s self c r y tValid tNow) = true ->
  requests (fetchCalculation s self c r y tValid tNow)
  = requests s
      ++ [mkRequest (toString (Math_floor c)) (toString r)
                    (toString (Math_floor y))].
Proof.
  unfold fetchCalculation. intros P. rewrite P.
  destruct (valid_entry _ tValid) as [e|];
    try destruct (_ <? MIN_REQUEST_INTERVAL);
    simpl; rewrite ?P; intros; try discriminate; reflexivity.
Qed.

(** C2. Along every run of calls and settlements, in any order and at any
    clock readings, at most one call of [fetchCalculation] is suspended on
    the network, and the in-flight flag is set exactly then; a call that
    arrives while the flag is set returns the state as it found it (no
    request, nothing else); so when a call has sent a request, two more
    calls made before it settles leave the request log at that one
    request. *)
Theorem at_most_one_fetch_outstanding (evs : list Event) :
  let s := run initial evs in
  (List.length (awaiting s) <= 1)%nat
  /\ (pendingRequestRef s = true <-> awaiting s <> [])
  /\ (forall self c r y tValid tNow,
         pendingRequestRef s = true ->
         fetchCalculation s self c r y tValid tNow = s)
  /\ (forall first second third,
         let s1 := step s first in
         pendingRequestRef s = false ->
         pendingRequestRef s1 = true ->
         (exists q, requests s1 = requests s ++ [q])
         /\ (forall self c r y tValid tNow self' c' r' y' tValid' tNow',
                second = Call self c r y tValid tNow ->
                third = Call self' c' r' y' tValid' tNow' ->
                run s1 [second; third] = s1)).
Proof.
  cbv zeta.
  destruct (guard_run evs initial) as [Hb Hi];
    [discriminate | reflexivity |].
  split; [|split; [split|split]].
  - destruct (pendingRequestRef (run initial evs)).
    + destruct Hb as [k ->]; auto.
    + rewrite Hi; auto.
  - intros P. destruct Hb as [k ->]; [exact P | discriminate].
  - intros Hne. destruct (pendingRequestRef (run initial evs)); auto.
  - intros. now apply call_while_pending.
  - intros first second third P0 P1. split.
    + destruct first as [self c r y tValid tNow|n o tSet tScan tLast tRetry];
        simpl in *.
      * eexists. now apply call_sends_one.
      * exfalso. unfold fetchCalculation_resume in P1.
        rewrite (Hi P0) in P1. destruct n; simpl in P1; congruence.
    + intros self c r y tValid tNow self' c' r' y' tValid' tNow' -> ->.
      change (fetchCalculation
                (fetchCalculation (step (run initial evs) first)
                   self c r y tValid tNow)
                self' c' r' y' tValid' tNow'
              = step (run initial evs) first).
      rewrite (call_while_pending _ self c r y tValid tNow P1).
      now apply call_while_pending.
Qed.

(** ** The state a settlement finds *)

Lemma before_settle (t0 : Z) (before : list Event) (n : nat)
      (outcome : FetchOutcome) (tSet tScan tLast tRetry : Z) (k : Suspended) :
  monotone_clock t0
    (before ++ [Settle n outcome tSet tScan tLast tRetry]) = true ->
  nth_error (awaiting (run initial before)) n = Some k ->
  let s := run initial before in
  NoDup (JsMap.keys (cacheRef s))
  /\ JsMap.size (cacheRef s) <= MAX_CACHE_SIZE
  /\ (forall k' e, In (k', e) (cacheRef s) -> truthy_str k' = true)
  /\ (forall k' e, In (k', e) (cacheRef s) -> timestamp e < tSet)
  /\ tSet <= tScan
  /\ tScan <= tLast
  /\ error s = None
  /\ cacheKey k = getCacheKey (cost k) (rate k) (yrs k).
Proof.
  intros Hm N. cbv zeta.
  rewrite monotone_clock_app in Hm. apply andb_prop in Hm.
  destruct Hm as [Hm1 Hm2].
  pose proof (Inv_run before t0 initial (Inv_initial t0) Hm1) as HI.
  unfold monotone_clock in Hm2. simpl in Hm2.
  repeat (apply andb_prop in Hm2; destruct Hm2 as [? Hm2]).
  repeat match goal with H : (_ <=? _) = true |- _ => apply Z.leb_le in H end.
  destruct HI as [I1 I2 I3 I4 I5 I6 I7 I8 I9].
  assert (P : pendingRequestRef (run initial before) = true).
  { destruct (pendingRequestRef (run initial before)); auto.
    rewrite I6 in N by reflexivity. destruct n; discriminate. }
  specialize (I7 P). unfold MIN_REQUEST_INTERVAL in I7.
  repeat split; auto.
  - intros k' e Hin. specialize (I4 _ _ Hin). lia.
  - apply I9. eapply nth_error_In; eauto.
Qed.

(** ** The cache bound *)

(** C3, amended. Along every run of the coordinator on a clock that never
    goes back, the cache never holds more than [MAX_CACHE_SIZE] entries; and
    when a successful settlement inserts an entry that brings the map
    above capacity, the resulting cache is the map after insertion minus
    exactly one key, whose entry has the smallest [timestamp] of all the
    entries present; when the insertion fits, nothing is removed. *)
Theorem cache_never_exceeds_capacity (t0 : Z) (evs : list Event) :
  monotone_clock t0 evs = true ->
  JsMap.size (cacheRef (run initial evs)) <= MAX_CACHE_SIZE
  /\ forall before n status data tSet tScan tLast tRetry k,
      evs = before
              ++ [Settle n (Responded status data) tSet tScan tLast tRetry] ->
      nth_error (awaiting (run initial before)) n = Some k ->
      is_success (Responded status data) = true ->
      let inserted :=
        JsMap.set (cacheRef (run initial before)) (cacheKey k)
                  (mkEntry (normalize k data) tSet 1) in
      (JsMap.size inserted <= MAX_CACHE_SIZE ->
       cacheRef (run initial evs) = inserted)
      /\ (MAX_CACHE_SIZE < JsMap.size inserted ->
          exists oldestKey oldest,
            JsMap.get inserted oldestKey = Some oldest
            /\ (forall k' e',
                   JsMap.get inserted k' = Some e' ->
                   timestamp oldest <= timestamp e')
            /\ cacheRef (run initial evs) = JsMap.delete inserted oldestKey
            /\ JsMap.size (cacheRef (run initial evs))
               = JsMap.size inserted - 1).
Proof.
  intros Hm. split.
  - apply (inv_size (clock_after t0 evs)).
    apply Inv_run; [apply Inv_initial | exact Hm].
  - intros before n status data tSet tScan tLast tRetry k -> N S.
    destruct (before_settle _ _ _ _ _ _ _ _ _ Hm N)
      as (B1 & B2 & B3 & B4 & B5 & _).
    rewrite run_app. cbn [run fold_left step].
    destruct (resume_success _ _ _ _ _ tSet tScan tLast tRetry N S)
      as (R1 & _).
    rewrite R1. cbv zeta. split.
    + intros Hfit. now apply cache_put_fits.
    + intros Hbig.
      destruct (cache_put_evicts _ (cacheKey k) (normalize k data) tSet tScan
                  B1 B2 B3 B4 B5 Hbig)
        as (ok & oe & _ & G & M & E & Z1).
      exists ok, oe. auto.
Qed.

(** ** A successful settlement *)

Lemma pending_error_step (s : State) (e : Event) :
  (pendingRequestRef s = true -> error s = None) ->
  pendingRequestRef (step s e) = true -> error (step s e) = None.
Proof.
  intros H.
  destruct e as [self c r y tValid tNow|n o tSet tScan tLast tRetry]; simpl.
  - unfold fetchCalculation.
    destruct (pendingRequestRef s) eqn:P; [intros _; now apply H|].
    destruct (valid_entry _ tValid) as [e|];
      try destruct (_ <? MIN_REQUEST_INTERVAL); simpl; congruence.
  - destruct (nth_error (awaiting s) n) as [k|] eqn:N.
    + destruct (is_success o) eqn:S.
      * destruct o as [err|status0 err|status data];
          [discriminate | discriminate |].
        destruct (resume_success s n k status data tSet tScan tLast tRetry N S)
          as (_ & _ & _ & _ & _ & R6).
        congruence.
      * destruct (resume_failure s n k o tSet tScan tLast tRetry N S)
          as (_ & _ & _ & _ & _ & R6).
        congruence.
    + unfold fetchCalculation_resume. now rewrite N.
Qed.

Lemma pending_error_run (evs : list Event) (s : State) :
  (pendingRequestRef s = true -> error s = None) ->
  pendingRequestRef (run s evs) = true -> error (run s evs) = None.
Proof.
  revert s. induction evs as [|e evs IH]; intros s H; [exact H|].
  cbn [run fold_left]. apply IH. now apply pending_error_step.
Qed.

(** C8, amended. When a suspended call settles with a successful response,
    whatever the clock readings, the published result holds, for each of
    [current_cost], [inflation_rate] and [no_years], the payload's value
    unless that field is missing or is 0, in which case it holds the
    value the call was made with; [future_amount] is the payload's
    amount, or 0 when it is missing; the error is null and the clock of
    the rate gate is the reading taken after the insertion. On a clock
    that never goes back, the cache moreover maps the call's key to that
    result, with the insertion reading and a hit count of 1, when the
    call ends. *)
Theorem success_publishes_normalized_result
        (before : list Event) (n : nat) (status : Z) (data : Payload)
        (tSet tScan tLast tRetry : Z) (k : Suspended) :
  nth_error (awaiting (run initial before)) n = Some k ->
  is_success (Responded status data) = true ->
  let s' :=
    run initial
      (before ++ [Settle n (Responded status data) tSet tScan tLast tRetry]) in
  let pick (field : option Z) (requested : Z) : Z :=
    match field with
    | None => requested
    | Some v => if v =? 0 then requested else v
    end in
  let r :=
    mkResult (pick (data_current_cost data) (cost k))
             (pick (data_inflation_rate data) (rate k))
             (pick (data_no_years data) (yrs k))
             (match data_future_amount data with
              | None => 0
              | Some v => v
              end) in
  cur_result s' = Some r
  /\ error s' = None
  /\ lastRequestTimeRef s' = tLast
  /\ (forall t0,
         monotone_clock t0
           (before
              ++ [Settle n (Responded status data) tSet tScan tLast tRetry])
         = true ->
         JsMap.get (cacheRef s') (getCacheKey (cost k) (rate k) (yrs k))
         = Some (mkEntry r tSet 1)).
Proof.
  intros N S. cbv zeta.
  rewrite run_app. cbn [run fold_left step].
  destruct (resume_success _ _ _ _ _ tSet tScan tLast tRetry N S)
    as (R1 & R2 & R3 & R4 & _).
  assert (Hr : normalize k data
               = mkResult
                   (match data_current_cost data with
                    | None => cost k
                    | Some v => if v =? 0 then cost k else v
                    end)
                   (match data_inflation_rate data with
                    | None => rate k
                    | Some v => if v =? 0 then rate k else v
                    end)
                   (match data_no_years data with
                    | None => yrs k
                    | Some v => if v =? 0 then yrs k else v
                    end)
                   (match data_future_amount data with
                    | None => 0
                    | Some v => v
                    end)).
  { unfold normalize, or_num. f_equal.
    destruct (data_future_amount data) as [v|]; auto.
    destruct (v =? 0) eqn:E; auto. apply Z.eqb_eq in E. now subst. }
  assert (P : pendingRequestRef (run initial before) = true).
  { destruct (guard_run before initial) as [_ Hi];
      [discriminate | reflexivity |].
    destruct (pendingRequestRef (run initial before)); auto.
    rewrite Hi in N by reflexivity. destruct n; discriminate. }
  rewrite R1, R2, R3, R4, <- Hr.
  split; [reflexivity|]. split; [|split; [reflexivity|]].
  - apply pending_error_run; [discriminate | exact P].
  - intros t0 Hm.
    destruct (before_settle _ _ _ _ _ _ _ _ _ Hm N)
      as (B1 & B2 & B3 & B4 & B5 & B6 & B7 & B8).
    rewrite <- B8. now apply cache_put_holds_new.
Qed.

(** Why the clock matters to the cache: set back before an insertion into
    a full cache, it makes the entry just stored the oldest one, and the
    eviction removes it at once. *)
Lemma stored_entry_lost_when_clock_set_back :
  JsMap.get (cacheRef (run initial (clock_set_back 51)))
            (getCacheKey 2500000 6 200) = None
  /\ option_map no_years (cur_result (run initial (clock_set_back 51)))
     = Some 200.
Proof. vm_compute. split; reflexivity. Qed.

(** ** Rate-limited responses *)



(** ** Failures and the published result *)

(** C10. When a suspended call settles with anything but a success (a
    rejected promise, a 429, a non-OK status, a payload status other than
    200), the published result is the one that was there before; the
    loading flag is lowered, an error message is published, and the cache
    is as it was. *)
Theorem failure_keeps_published_result
        (s : State) (n : nat) (k : Suspended) (outcome : FetchOutcome)
        (tSet tScan tLast tRetry : Z) :
  nth_error (awaiting s) n = Some k ->
  is_success outcome = false ->
  let s' := fetchCalculation_resume s n outcome tSet tScan tLast tRetry in
  cur_result s' = cur_result s
  /\ loading s' = false
  /\ (exists message, error s' = Some message)
  /\ cacheRef s' = cacheRef s.
Proof.
  intros N S. cbv zeta.
  destruct (resume_failure s n k outcome tSet tScan tLast tRetry N S)
    as (R1 & R2 & R3 & R4 & R5 & R6).
  repeat split; auto.
  destruct (error _) as [m|]; [now exists m | congruence].
Qed.

(** ** Cache hits *)

(** C7. A call made while no request is in flight, whose key is in the
    cache: if the entry is younger than [CACHE_DURATION] at the reading of
    [isCacheValid], its hit count goes up by one and nothing else in the
    cache moves, its result is published, the error is null, and the
    request log, the suspended calls, the clock of the rate gate and the
    retry flag are untouched; if it is not, the entry is not published
    (the result is the one that was there) and is still in the cache. *)
Theorem valid_entry_served_expired_entry_kept
        (s : State) (self : Inputs) (c r y tValid tNow : Z) (e : CacheEntry) :
  pendingRequestRef s = false ->
  JsMap.get (cacheRef s) (getCacheKey c r y) = Some e ->
  let s' := fetchCalculation s self c r y tValid tNow in
  (tValid - timestamp e < CACHE_DURATION ->
   JsMap.get (cacheRef s') (getCacheKey c r y)
   = Some (mkEntry (result e) (timestamp e) (hitCount e + 1))
   /\ (forall k', k' <> getCacheKey c r y ->
                  JsMap.get (cacheRef s') k' = JsMap.get (cacheRef s) k')
   /\ cur_result s' = Some (result e)
   /\ error s' = None
   /\ loading s' = false
   /\ requests s' = requests s
   /\ awaiting s' = awaiting s
   /\ lastRequestTimeRef s' = lastRequestTimeRef s
   /\ requestQueueRef s' = requestQueueRef s
   /\ pendingRequestRef s' = false)
  /\ (CACHE_DURATION <= tValid - timestamp e ->
      cur_result s' = cur_result s
      /\ cacheRef s' = cacheRef s
      /\ JsMap.get (cacheRef s') (getCacheKey c r y) = Some e).
Proof.
  intros P G. cbv zeta. unfold fetchCalculation. rewrite P, G.
  unfold valid_entry, isCacheValid. split; intros Hage.
  - apply Z.ltb_lt in Hage. rewrite Hage. simpl.
    repeat split; auto.
    + apply get_set_same.
    + intros k' Hne. now apply get_set_other.
  - apply Z.ltb_ge in Hage. rewrite Hage.
    destruct (_ <? MIN_REQUEST_INTERVAL); simpl; auto.
Qed.

(** ** The clock of the rate gate *)

(** C5, amended. [lastRequestTimeRef] is never written when a call starts;
    when a suspended call settles it is written exactly if the settlement
    is a success, with the reading taken after the result is stored, and
    it keeps its value on every failure, rate-limited or not. *)
Theorem clock_written_on_success_only (s : State) :
  (forall self c r y tValid tNow,
      lastRequestTimeRef (fetchCalculation s self c r y tValid tNow)
      = lastRequestTimeRef s)
  /\ (forall n outcome tSet tScan tLast tRetry,
         lastRequestTimeRef
           (fetchCalculation_resume s n outcome tSet tScan tLast tRetry)
         = match nth_error (awaiting s) n with
           | Some _ => if is_success outcome then tLast
                       else lastRequestTimeRef s
           | None => lastRequestTimeRef s
           end).
Proof.
  split.
  - intros. unfold fetchCalculation.
    destruct (pendingRequestRef s); auto.
    destruct (valid_entry _ tValid) as [e|];
      try destruct (_ <? MIN_REQUEST_INTERVAL); reflexivity.
  - intros. destruct (nth_error (awaiting s) n) as [k|] eqn:N.
    + destruct (is_success outcome) eqn:S.
      * destruct outcome as [err|status0 err|status data];
      [discriminate | discriminate |].
        now destruct (resume_success s n k status data
                        tSet tScan tLast tRetry N S) as (_ & R2 & _).
      * now destruct (resume_failure s n k outcome
                        tSet tScan tLast tRetry N S) as (_ & R2 & _).
    + unfold fetchCalculation_resume. now rewrite N.
Qed.

(** C5, as stated, fails: after a request that fails for good, the clock
    of the rate gate is not within the readings of that settlement. *)
Lemma failed_request_leaves_clock_behind :
  ~ (forall s n k outcome tSet tScan tLast tRetry,
        nth_error (awaiting s) n = Some k ->
        is_success outcome = false ->
        is_rate_limited outcome = false ->
        let s' := fetchCalculation_resume s n outcome tSet tScan tLast tRetry in
        tSet <= lastRequestTimeRef s' <= tRetry).
Proof.
  intros H.
  specialize (H in_flight 0%nat first_call
                (Rejected (ErrorObject "Failed to fetch"))
                10100 10100 10100 10100 eq_refl eq_refl eq_refl).
  vm_compute in H. destruct H as [H _]. now apply H.
Qed.

(** C8, as stated, fails: a field the server does echo is not always the
    one published. *)
Lemma echoed_zero_is_replaced :
  ~ (forall s n k status data tSet tScan tLast tRetry v,
        nth_error (awaiting s) n = Some k ->
        is_success (Responded status data) = true ->
        data_current_cost data = Some v ->
        let s' := fetchCalculation_resume s n (Responded status data)
                    tSet tScan tLast tRetry in
        option_map current_cost (cur_result s') = Some v).
Proof.
  intros H.
  specialize (H in_flight 0%nat first_call 200 zero_cost_payload
                10100 10100 10100 10100 0 eq_refl eq_refl eq_refl).
  vm_compute in H. discriminate H.
Qed.

(** C3, as stated, fails: when the clock is set back, every entry of an
    overfull cache may be stamped no earlier than the reading the scan
    starts from, and nothing is evicted. *)
Lemma cache_overfull_when_clock_set_back :
  ~ (forall evs : list Event,
        JsMap.size (cacheRef (run initial evs)) <= MAX_CACHE_SIZE).
Proof.
  intros H. specialize (H (clock_set_back 50)).
  vm_compute in H. now apply H.
Qed.

(** ** Witnesses *)

Lemma cache_never_exceeds_capacity_witness :
  monotone_clock 0 (successive 101 1) = true
  /\ JsMap.size (cacheRef (run initial (successive 101 1))) <= MAX_CACHE_SIZE.
Proof.
  split; [vm_compute; reflexivity|].
  apply (cache_never_exceeds_capacity 0 (successive 101 1)).
  vm_compute; reflexivity.
Defined.

Lemma success_publishes_normalized_result_witness :
  nth_error (awaiting in_flight) 0 = Some first_call
  /\ is_success (Responded 200 sparse_payload) = true
  /\ cur_result
       (run initial
          ([Call default_inputs 2500000 6 10 10000 10000]
             ++ [Settle 0 (Responded 200 sparse_payload)
                        10100 10101 10102 10103]))
     = Some (mkResult 2500000 6 10 0)
  /\ JsMap.get
       (cacheRef
          (run initial
             ([Call default_inputs 2500000 6 10 10000 10000]
                ++ [Settle 0 (Responded 200 sparse_payload)
                           10100 10101 10102 10103])))
       (getCacheKey 2500000 6 10)
     = Some (mkEntry (mkResult 2500000 6 10 0) 10100 1).
Proof.
  split; [reflexivity|]. split; [reflexivity|].
  destruct (success_publishes_normalized_result
              [Call default_inputs 2500000 6 10 10000 10000] 0 200
              sparse_payload 10100 10101 10102 10103 first_call
              eq_refl eq_refl) as (Hres & _ & _ & Hcache).
  split; [exact Hres | exact (Hcache 0 eq_refl)].
Defined.


Lemma failure_keeps_published_result_witness :
  nth_error (awaiting second_flight) 0 = Some second_call
  /\ is_success (Rejected (ErrorObject "Failed to fetch")) = false
  /\ cur_result second_flight = Some (mkResult 2500000 6 10 4476000)
  /\ cur_result (fetchCalculation_resume second_flight 0
                   (Rejected (ErrorObject "Failed to fetch"))
                   12100 12100 12100 12100)
     = Some (mkResult 2500000 6 10 4476000).
Proof.
  split; [reflexivity|]. split; [reflexivity|]. split; [reflexivity|].
  destruct (failure_keeps_published_result second_flight 0 second_call
              (Rejected (ErrorObject "Failed to fetch"))
              12100 12100 12100 12100 eq_refl eq_refl) as (Hres & _).
  exact Hres.
Defined.

Lemma valid_entry_served_expired_entry_kept_witness :
  pendingRequestRef answered = false
  /\ JsMap.get (cacheRef answered) (getCacheKey 2500000 6 10)
     = Some (mkEntry (mkResult 2500000 6 10 4476000) 10100 1)
  /\ cur_result
       (fetchCalculation answered default_inputs 2500000 6 10 10500 10500)
     = Some (mkResult 2500000 6 10 4476000).
Proof.
  split; [reflexivity|]. split; [reflexivity|].
  destruct (valid_entry_served_expired_entry_kept answered default_inputs
              2500000 6 10 10500 10500
              (mkEntry (mkResult 2500000 6 10 4476000) 10100 1)
              eq_refl eq_refl) as [Hvalid _].
  destruct Hvalid as (_ & _ & Hserved & _); [reflexivity | exact Hserved].
Defined.

(** ** The effects and the timers *)

(** Once mounted, a change of any input makes a new callback, and the
    effect keyed on the callback calls it in the same commit, before the
    timer of the other effect is even set. *)
Lemma change_calls_at_once (c : Component) (t : Z) (next : Inputs) :
  mounted c = true ->
  Inputs_eqb (inputs c) next = false ->
  let c' := ui_step c (SetInputs t next) in
  triggers c' = triggers c ++ [mkTrigger CallbackEffect t next]
  /\ debounceTimerRef c' = Some (mkDebounce (t + DEBOUNCE_DELAY) next).
Proof.
  destruct c as [i m d co tr]. simpl. intros -> D.
  unfold commit, deps_changed. simpl. rewrite D. simpl.
  split; reflexivity.
Qed.

(** The retry timer set by a settlement calls the closure of the settled
    call, whatever the inputs have become. *)
Lemma retry_callback_is_closure (s : State) (n : nat) (k : Suspended)
      (outcome : FetchOutcome) (tSet tScan tLast tRetry : Z) (r : Timeout) :
  nth_error (awaiting s) n = Some k ->
  In r (timeouts (fetchCalculation_resume s n outcome tSet tScan tLast tRetry)) ->
  In r (timeouts s) \/ callback r = closure k.
Proof.
  intros N. unfold fetchCalculation_resume. rewrite N.
  remember (try_block k outcome tSet tScan tLast
              (set_awaiting (remove_nth n (awaiting s)) s)) as s1 eqn:Hs1.
  assert (T : timeouts s1 = timeouts s).
  { destruct (is_success outcome) eqn:S.
    - destruct outcome as [err|status0 err|status data];
      [discriminate | discriminate |].
      rewrite (try_block_success _ _ _ _ _ _ _ S) in Hs1. now subst s1.
    - destruct (try_block_failure k outcome tSet tScan tLast
                  (set_awaiting (remove_nth n (awaiting s)) s) S)
        as (_ & _ & _ & _ & _ & _ & _ & _ & T9).
      now rewrite <- Hs1 in T9. }
  unfold finally_block. simpl.
  destruct (requestQueueRef s1); simpl; [|rewrite T; auto].
  destruct (_ >? 0); simpl; rewrite T; auto.
  intros Hin. apply in_app_or in Hin. destruct Hin as [Hin|[<-|[]]]; auto.
Qed.

(** After a failure the spacing has always elapsed, so the retry a
    deferred call had queued is dropped with the flag. *)
Lemma queued_retry_dropped (s : State) (n : nat) (k : Suspended)
      (outcome : FetchOutcome) (tSet tScan tLast tRetry : Z) :
  nth_error (awaiting s) n = Some k ->
  is_success outcome = false ->
  requestQueueRef s = true ->
  lastRequestTimeRef s + MIN_REQUEST_INTERVAL <= tRetry ->
  let s' := fetchCalculation_resume s n outcome tSet tScan tLast tRetry in
  requestQueueRef s' = false /\ timeouts s' = timeouts s.
Proof.
  intros N S Q G. cbv zeta. unfold fetchCalculation_resume. rewrite N.
  set (s0 := set_awaiting (remove_nth n (awaiting s)) s).
  assert (A2 : lastRequestTimeRef s0 = lastRequestTimeRef s) by reflexivity.
  assert (A8 : requestQueueRef s0 = requestQueueRef s) by reflexivity.
  assert (A9 : timeouts s0 = timeouts s) by reflexivity.
  destruct (try_block_failure k outcome tSet tScan tLast s0 S)
    as (_ & T2 & _ & _ & _ & _ & _ & T8 & T9).
  unfold finally_block.
  cbn [requestQueueRef lastRequestTimeRef timeouts
       set_pendingRequestRef set_requestQueueRef].
  rewrite T8, A8, Q, T2, A2.
  destruct (_ >? 0) eqn:E;
    [|split; [reflexivity | now rewrite <- A9, <- T9]].
  apply Z.gtb_lt in E. unfold MIN_REQUEST_INTERVAL in *. lia.
Qed.

(** After a success the clock of the rate gate has just been written, so
    a queued retry is set, due one interval after that write. *)
Lemma queued_retry_after_success (s : State) (n : nat) (k : Suspended)
      (status : Z) (data : Payload) (tSet tScan tLast tRetry : Z) :
  nth_error (awaiting s) n = Some k ->
  is_success (Responded status data) = true ->
  requestQueueRef s = true ->
  tLast <= tRetry < tLast + MIN_REQUEST_INTERVAL ->
  let s' := fetchCalculation_resume s n (Responded status data)
              tSet tScan tLast tRetry in
  requestQueueRef s' = false
  /\ exists r,
      timeouts s' = timeouts s ++ [r]
      /\ callback r = closure k
      /\ armed_at r + delay r = tLast + MIN_REQUEST_INTERVAL.
Proof.
  intros N S Q G. cbv zeta. unfold fetchCalculation_resume. rewrite N.
  rewrite (try_block_success _ _ _ _ _ _ _ S).
  unfold finally_block.
  cbn [requestQueueRef lastRequestTimeRef timeouts set_awaiting setLoading
       set_lastRequestTimeRef setResult set_cacheRef
       set_pendingRequestRef set_requestQueueRef].
  rewrite Q.
  destruct (_ >? 0) eqn:E.
  - split; [reflexivity|]. eexists. split; [reflexivity|].
    split; [reflexivity|]. cbn [armed_at delay]. lia.
  - rewrite Z.gtb_ltb in E. apply Z.ltb_ge in E.
    unfold MIN_REQUEST_INTERVAL in *. lia.
Qed.

(** C1, on the code. After the mount has settled, a drag of the years
    slider through 11, 12 and 13 within 100 ms makes four calls of
    [fetchCalculation], not one: one at once for each change, through the
    effect keyed on the callback, and the debounced one 500 ms after the
    last change; the request sent is the one for 11 years, the first value
    of the drag. *)
Theorem drag_calls_on_every_change :
  let c := ui_run first_render (settled_mount ++ slider_drag) in
  triggers_after 2 c
  = [mkTrigger CallbackEffect 20000 (mkInputs 2500000 6 11);
     mkTrigger CallbackEffect 20050 (mkInputs 2500000 6 12);
     mkTrigger CallbackEffect 20100 (mkInputs 2500000 6 13);
     mkTrigger DebounceTimer 20600 (mkInputs 2500000 6 13)]
  /\ map q_no_years (requests (coordinator c)) = ["10"; "11"]%string.
Proof. vm_compute. split; reflexivity. Qed.

(** C4, on the code. A call deferred by the rate gate leaves the retry
    flag set; the next request that is sent fails; its [finally] block
    finds the spacing elapsed, clears the flag and sets no timer: the
    deferred request for 11 years is never sent. *)
Theorem queued_retry_lost_after_failure :
  let queued := run initial (firstn 4 deferred_then_failure) in
  let s := run initial deferred_then_failure in
  requestQueueRef queued = true
  /\ pendingRequestRef queued = true
  /\ requestQueueRef s = false
  /\ pendingRequestRef s = false
  /\ timeouts s = []
  /\ map q_no_years (requests s) = ["10"; "12"]%string.
Proof. vm_compute. repeat split; reflexivity. Qed.

(** C9, on the code. The retry timer set when the request for 11 years
    settles fires after the user has moved on to 12 years: it calls
    [fetchCalculation] with 11 years, the inputs of the closure that set
    it, and the cached result for 11 years is published over inputs that
    read 12. *)
Theorem retry_calls_with_captured_inputs :
  let c := ui_run first_render (settled_mount ++ change_during_fetch) in
  last (triggers c) (mkTrigger RetryTimer 0 default_inputs)
  = mkTrigger RetryTimer 12200 (mkInputs 2500000 6 11)
  /\ inputs c = mkInputs 2500000 6 12
  /\ option_map no_years (cur_result (coordinator c)) = Some 11
  /\ map q_no_years (requests (coordinator c)) = ["10"; "11"]%string.
Proof. vm_compute. repeat split; reflexivity. Qed.

(** The 101st entry evicts the first one inserted, and only that one. *)
Example eviction_of_the_oldest :
  JsMap.keys (cacheRef (run initial (successive 100 1)))
  = map (fun y => getCacheKey 2500000 6 (Z.of_nat y)) (seq 1 100)
  /\ JsMap.keys (cacheRef (run initial (successive 101 1)))
     = map (fun y => getCacheKey 2500000 6 (Z.of_nat y)) (seq 2 100).
Proof. vm_compute. split; reflexivity. Qed.

(** * Further properties of the widget *)

(** ** When a call reaches the network *)

(** X1. A call of [fetchCalculation] sends a request exactly when no
    request is in flight, the cache has no entry for the key that is
    younger than [CACHE_DURATION], and at least [MIN_REQUEST_INTERVAL] has
    passed since the clock of the rate gate: then it sends one request
    with the three arguments printed, raises the in-flight and loading
    flags and clears the error; in every other case the request log is
    as it was. *)
Theorem request_sent_exactly_when
        (s : State) (self : Inputs) (c r y tValid tNow : Z) :
  let s' := fetchCalculation s self c r y tValid tNow in
  let sends :=
    pendingRequestRef s = false
    /\ (forall e, JsMap.get (cacheRef s) (getCacheKey c r y) = Some e ->
                  CACHE_DURATION <= tValid - timestamp e)
    /\ MIN_REQUEST_INTERVAL <= tNow - lastRequestTimeRef s in
  (sends ->
   requests s'
   = requests s ++ [mkRequest (toString (Math_floor c)) (toString r)
                              (toString (Math_floor y))]
   /\ pendingRequestRef s' = true
   /\ loading s' = true
   /\ error s' = None)
  /\ (~ sends -> requests s' = requests s).
Proof.
  cbv zeta. unfold fetchCalculation, valid_entry, isCacheValid. split.
  - intros (P & V & G). rewrite P.
    apply Z.ltb_ge in G. rewrite G.
    destruct (JsMap.get (cacheRef s) (getCacheKey c r y)) as [e|].
    + specialize (V e eq_refl). apply Z.ltb_ge in V. rewrite V.
      repeat split; reflexivity.
    + repeat split; reflexivity.
  - intros Hn. destruct (pendingRequestRef s) eqn:P; [reflexivity|].
    destruct (JsMap.get (cacheRef s) (getCacheKey c r y)) as [e|] eqn:Ge.
    + destruct (tValid - timestamp e <? CACHE_DURATION) eqn:V; [reflexivity|].
      destruct (tNow - lastRequestTimeRef s <? MIN_REQUEST_INTERVAL) eqn:G;
        [reflexivity|].
      exfalso. apply Hn. apply Z.ltb_ge in V. apply Z.ltb_ge in G.
      repeat split; auto. intros e0 [= <-]. exact V.
    + destruct (tNow - lastRequestTimeRef s <? MIN_REQUEST_INTERVAL) eqn:G;
        [reflexivity|].
      exfalso. apply Hn. apply Z.ltb_ge in G.
      repeat split; auto. discriminate.
Qed.

(** X2. A call that the rate gate turns away (no request in flight, no
    servable entry, less than [MIN_REQUEST_INTERVAL] since the clock of
    the gate) raises the retry flag and does nothing else: no request, no
    timer, and the loading flag, the error, the published result, the
    cache and the clock stay as they were. *)
Theorem deferred_call_only_raises_flag
        (s : State) (self : Inputs) (c r y tValid tNow : Z) :
  pendingRequestRef s = false ->
  (forall e, JsMap.get (cacheRef s) (getCacheKey c r y) = Some e ->
             CACHE_DURATION <= tValid - timestamp e) ->
  tNow - lastRequestTimeRef s < MIN_REQUEST_INTERVAL ->
  let s' := fetchCalculation s self c r y tValid tNow in
  requestQueueRef s' = true
  /\ requests s' = requests s
  /\ timeouts s' = timeouts s
  /\ awaiting s' = awaiting s
  /\ pendingRequestRef s' = false
  /\ loading s' = loading s
  /\ error s' = error s
  /\ cur_result s' = cur_result s
  /\ cacheRef s' = cacheRef s
  /\ lastRequestTimeRef s' = lastRequestTimeRef s.
Proof.
  intros P V G. cbv zeta.
  unfold fetchCalculation, valid_entry, isCacheValid. rewrite P.
  apply Z.ltb_lt in G. rewrite G.
  destruct (JsMap.get (cacheRef s) (getCacheKey c r y)) as [e|].
  - specialize (V e eq_refl). apply Z.ltb_ge in V. rewrite V.
    simpl. repeat split; auto.
  - simpl. repeat split; auto.
Qed.

Lemma deferred_call_only_raises_flag_witness :
  pendingRequestRef answered = false
  /\ (forall e, JsMap.get (cacheRef answered) (getCacheKey 2500000 6 11)
                = Some e ->
                CACHE_DURATION <= 10600 - timestamp e)
  /\ 10600 - lastRequestTimeRef answered < MIN_REQUEST_INTERVAL
  /\ requestQueueRef
       (fetchCalculation answered (mkInputs 2500000 6 11) 2500000 6 11
          10600 10600) = true.
Proof.
  assert (V : forall e,
             JsMap.get (cacheRef answered) (getCacheKey 2500000 6 11) = Some e ->
             CACHE_DURATION <= 10600 - timestamp e)
    by (intros e; vm_compute; discriminate).
  split; [reflexivity|]. split; [exact V|]. split; [reflexivity|].
  apply (deferred_call_only_raises_flag answered (mkInputs 2500000 6 11)
           2500000 6 11 10600 10600 eq_refl V eq_refl).
Defined.

(** ** The loading flag and the published result *)

Lemma loading_step (s : State) (e : Event) :
  loading s = pendingRequestRef s ->
  loading (step s e) = pendingRequestRef (step s e).
Proof.
  intros L.
  destruct e as [self c r y tValid tNow|n o tSet tScan tLast tRetry]; simpl.
  - unfold fetchCalculation.
    destruct (pendingRequestRef s) eqn:P; [congruence|].
    destruct (valid_entry _ tValid) as [e|];
      try destruct (_ <? MIN_REQUEST_INTERVAL); simpl; congruence.
  - destruct (nth_error (awaiting s) n) as [k|] eqn:N.
    + destruct (is_success o) eqn:S.
      * destruct o as [err|status0 err|status data];
      [discriminate | discriminate |].
        destruct (resume_success s n k status data tSet tScan tLast tRetry N S)
          as (_ & _ & _ & _ & R5 & R6).
        now rewrite R5, R6.
      * destruct (resume_failure s n k o tSet tScan tLast tRetry N S)
          as (_ & _ & _ & R4 & _ & R6).
        now rewrite R4, R6.
    + unfold fetchCalculation_resume. now rewrite N.
Qed.

(** X3. Along every run of the coordinator, the loading flag is up exactly
    while a request is in flight: a cache hit or a call turned away by
    the rate gate never raises it, and every settlement lowers it. *)
Theorem loading_exactly_while_in_flight (evs : list Event) :
  let s := run initial evs in
  loading s = pendingRequestRef s
  /\ (loading s = true <-> awaiting s <> []).
Proof.
  cbv zeta.
  assert (L : forall evs s, loading s = pendingRequestRef s ->
                            loading (run s evs) = pendingRequestRef (run s evs)).
  { clear evs. induction evs as [|e evs IH]; intros s H; [exact H|].
    cbn [run fold_left]. apply IH. now apply loading_step. }
  specialize (L evs initial eq_refl).
  destruct (guard_run evs initial) as [Hb Hi];
    [discriminate | reflexivity |].
  split; [exact L|]. rewrite L. split.
  - intros P. destruct (Hb P) as [k ->]. discriminate.
  - intros Hne. destruct (pendingRequestRef (run initial evs)); auto.
Qed.

Lemma result_kept_step (s : State) (e : Event) :
  cur_result s <> None -> cur_result (step s e) <> None.
Proof.
  intros H.
  destruct e as [self c r y tValid tNow|n o tSet tScan tLast tRetry]; simpl.
  - unfold fetchCalculation.
    destruct (pendingRequestRef s); auto.
    destruct (valid_entry _ tValid) as [e|];
      try destruct (_ <? MIN_REQUEST_INTERVAL); simpl; auto; discriminate.
  - destruct (nth_error (awaiting s) n) as [k|] eqn:N.
    + destruct (is_success o) eqn:S.
      * destruct o as [err|status0 err|status data];
      [discriminate | discriminate |].
        destruct (resume_success s n k status data tSet tScan tLast tRetry N S)
          as (_ & _ & R3 & _).
        rewrite R3. discriminate.
      * destruct (resume_failure s n k o tSet tScan tLast tRetry N S)
          as (_ & _ & R3 & _).
        now rewrite R3.
    + unfold fetchCalculation_resume. now rewrite N.
Qed.

(** X4. Once a result is published, no call and no settlement ever sets it
    back to null: the download button, enabled by a result, stays enabled
    for the rest of the widget's life. *)
Theorem download_stays_enabled (s : State) (evs : list Event) :
  download_enabled s = true ->
  download_enabled (run s evs) = true.
Proof.
  intros H.
  assert (K : forall evs s, cur_result s <> None ->
                            cur_result (run s evs) <> None).
  { clear. induction evs as [|e evs IH]; intros s H; [exact H|].
    cbn [run fold_left]. apply IH. now apply result_kept_step. }
  unfold download_enabled in *.
  specialize (K evs s). destruct (cur_result s); [|discriminate].
  destruct (cur_result (run s evs)); auto.
  exfalso. apply K; [discriminate | reflexivity].
Qed.

Lemma download_stays_enabled_witness :
  download_enabled answered = true
  /\ download_enabled
       (run answered
          [Call (mkInputs 2500000 6 12) 2500000 6 12 12000 12000;
           Settle 0 (Rejected OtherValue) 12100 12100 12100 12100]) = true.
Proof.
  split; [reflexivity|].
  apply (download_stays_enabled answered); reflexivity.
Defined.

(** ** What a failed response shows *)



(** ** Hits and the shape of the cache *)

Lemma without_hits_set (m : JsMap.t CacheEntry) (k : string) (e v : CacheEntry) :
  JsMap.get m k = Some e ->
  result v = result e -> timestamp v = timestamp e ->
  without_hits (JsMap.set m k v) = without_hits m.
Proof.
  intros G R T. induction m as [|[k' e'] rest IH]; simpl in *; [discriminate|].
  destruct (String.eqb k' k) eqn:E; simpl.
  - injection G as ->. now rewrite R, T.
  - now rewrite IH.
Qed.

(** X6. No call of [fetchCalculation] changes which keys the cache holds,
    their iteration order, their results or their insertion times: a hit
    only counts. Serving an entry therefore neither prolongs its life nor
    moves it away from eviction. *)
Theorem call_keeps_cache_shape
        (s : State) (self : Inputs) (c r y tValid tNow : Z) :
  let s' := fetchCalculation s self c r y tValid tNow in
  without_hits (cacheRef s') = without_hits (cacheRef s)
  /\ (forall k e', JsMap.get (cacheRef s') k = Some e' ->
        exists e, JsMap.get (cacheRef s) k = Some e
                  /\ hitCount e <= hitCount e' <= hitCount e + 1).
Proof.
  cbv zeta. unfold fetchCalculation.
  assert (Same : forall k e', JsMap.get (cacheRef s) k = Some e' ->
            exists e, JsMap.get (cacheRef s) k = Some e
                      /\ hitCount e <= hitCount e' <= hitCount e + 1).
  { intros k e' G. exists e'. split; [exact G | lia]. }
  destruct (pendingRequestRef s); [split; [reflexivity | exact Same]|].
  destruct (valid_entry _ tValid) as [e|] eqn:V.
  - apply valid_entry_Some in V. destruct V as [G _]. simpl. split.
    + now apply without_hits_set with (e := e).
    + intros k e' G'.
      destruct (String.eqb_spec k (getCacheKey c r y)) as [->|Hne].
      * rewrite get_set_same in G'. injection G' as <-.
        exists e. split; [exact G | simpl; lia].
      * rewrite get_set_other in G' by exact Hne. now apply Same.
  - destruct (_ <? MIN_REQUEST_INTERVAL); simpl; split;
      (reflexivity || exact Same).
Qed.

(** ** A result that was stored is served *)

(** X7. On a clock that never goes back, a call made with the arguments of
    a request that has just succeeded, while the stored entry is younger
    than [CACHE_DURATION], is answered from the cache: the same result is
    published, no request leaves, and the entry counts its second hit. *)
Theorem stored_result_is_served
        (t0 : Z) (before : list Event) (n : nat) (status : Z) (data : Payload)
        (tSet tScan tLast tRetry : Z) (k : Suspended)
        (self : Inputs) (tValid tNow : Z) :
  monotone_clock t0
    (before ++ [Settle n (Responded status data) tSet tScan tLast tRetry])
  = true ->
  nth_error (awaiting (run initial before)) n = Some k ->
  is_success (Responded status data) = true ->
  tValid - tSet < CACHE_DURATION ->
  let s1 :=
    run initial
      (before ++ [Settle n (Responded status data) tSet tScan tLast tRetry]) in
  let s2 := fetchCalculation s1 self (cost k) (rate k) (yrs k) tValid tNow in
  cur_result s2 = cur_result s1
  /\ cur_result s2 = Some (normalize k data)
  /\ requests s2 = requests s1
  /\ JsMap.get (cacheRef s2) (getCacheKey (cost k) (rate k) (yrs k))
     = Some (mkEntry (normalize k data) tSet 2).
Proof.
  intros Hm N S Hage. cbv zeta.
  destruct (before_settle _ _ _ _ _ _ _ _ _ Hm N)
    as (B1 & B2 & B3 & B4 & B5 & B6 & B7 & B8).
  rewrite run_app. cbn [run fold_left step].
  destruct (resume_success _ _ _ _ _ tSet tScan tLast tRetry N S)
    as (R1 & R2 & R3 & R4 & R5 & R6).
  set (s1 := fetchCalculation_resume (run initial before) n
               (Responded status data) tSet tScan tLast tRetry) in *.
  assert (G : JsMap.get (cacheRef s1) (getCacheKey (cost k) (rate k) (yrs k))
              = Some (mkEntry (normalize k data) tSet 1)).
  { rewrite R1, <- B8. now apply cache_put_holds_new. }
  unfold fetchCalculation. rewrite R6, G.
  unfold valid_entry, isCacheValid. cbn [timestamp].
  apply Z.ltb_lt in Hage. rewrite Hage. cbn [result hitCount].
  simpl. rewrite R3. repeat split; auto.
  apply get_set_same.
Qed.

Lemma stored_result_is_served_witness :
  monotone_clock 0
    [Call default_inputs 2500000 6 10 10000 10000;
     Settle 0 (answer 10 4476000) 10100 10100 10100 10100] = true
  /\ nth_error (awaiting in_flight) 0 = Some first_call
  /\ is_success (answer 10 4476000) = true
  /\ 10500 - 10100 < CACHE_DURATION
  /\ requests (fetchCalculation answered default_inputs 2500000 6 10
                 10500 10500)
     = requests answered.
Proof.
  split; [reflexivity|]. split; [reflexivity|]. split; [reflexivity|].
  split; [reflexivity|].
  apply (stored_result_is_served 0
           [Call default_inputs 2500000 6 10 10000 10000] 0 200
           (mkPayload (Some 2500000) (Some 6) (Some 10) (Some 4476000)
                      (Some 200) None)
           10100 10100 10100 10100 first_call default_inputs 10500 10500);
    reflexivity.
Defined.

(** ** Insertion times *)

Lemma In_stamps (m : JsMap.t CacheEntry) (t : Z) :
  In t (stamps m) -> exists k e, In (k, e) m /\ timestamp e = t.
Proof.
  unfold stamps. intros H. apply in_map_iff in H.
  destruct H as ([k e] & Ht & Hin). exists k, e. auto.
Qed.

Lemma stamps_set_same (m : JsMap.t CacheEntry) (k : string) (e v : CacheEntry) :
  JsMap.get m k = Some e -> timestamp v = timestamp e ->
  stamps (JsMap.set m k v) = stamps m.
Proof.
  intros G T. induction m as [|[k' e'] rest IH]; simpl in *; [discriminate|].
  destruct (String.eqb k' k) eqn:E; simpl.
  - injection G as ->. now rewrite T.
  - now rewrite IH.
Qed.

Lemma NoDup_stamps_set (m : JsMap.t CacheEntry) (k : string) (v : CacheEntry) :
  NoDup (stamps m) ->
  (forall k' e, In (k', e) m -> timestamp e < timestamp v) ->
  NoDup (stamps (JsMap.set m k v)).
Proof.
  induction m as [|[k' e'] rest IH]; intros Hnd Hlt; simpl.
  - constructor; [tauto | constructor].
  - inversion Hnd as [|? ? Hnotin Hnd']; subst.
    destruct (String.eqb k' k); simpl.
    + constructor; auto. intros Hin. apply In_stamps in Hin.
      destruct Hin as (k1 & e1 & Hin & Heq).
      specialize (Hlt k1 e1 (or_intror Hin)). lia.
    + constructor.
      * intros Hin. apply In_stamps in Hin.
        destruct Hin as (k1 & e1 & Hin & Heq).
        apply In_set in Hin. destruct Hin as [E|Hin].
        -- injection E as _ ->.
           specialize (Hlt k' e' (or_introl eq_refl)). lia.
        -- apply Hnotin. unfold stamps. apply in_map_iff.
           exists (k1, e1). auto.
      * apply IH; auto. intros k1 e1 Hin. apply (Hlt k1). now right.
Qed.

Lemma NoDup_stamps_delete (m : JsMap.t CacheEntry) (k : string) :
  NoDup (stamps m) -> NoDup (stamps (JsMap.delete m k)).
Proof.
  induction m as [|[k' e'] rest IH]; intros Hnd; simpl; auto.
  inversion Hnd as [|? ? Hnotin Hnd']; subst.
  destruct (String.eqb k' k); simpl; auto.
  constructor; auto. intros Hin. apply Hnotin.
  apply In_stamps in Hin. destruct Hin as (k1 & e1 & Hin & Heq).
  apply In_delete in Hin. unfold stamps. apply in_map_iff.
  exists (k1, e1). auto.
Qed.

Lemma NoDup_stamps_put (m : JsMap.t CacheEntry) (key : string)
      (r : CalculationResult) (tSet tScan : Z) :
  NoDup (stamps m) ->
  (forall k' e, In (k', e) m -> timestamp e < tSet) ->
  NoDup (stamps (cache_put m key r tSet tScan)).
Proof.
  intros Hnd Hlt.
  assert (H : NoDup (stamps (JsMap.set m key (mkEntry r tSet 1))))
    by (apply NoDup_stamps_set; auto).
  unfold cache_put.
  destruct (_ >? MAX_CACHE_SIZE); auto.
  destruct (oldest_scan _ None tScan) as [k|]; auto.
  destruct (truthy_str k); auto. now apply NoDup_stamps_delete.
Qed.

Lemma stamps_step (t : Z) (s : State) (e : Event) :
  Inv t s -> NoDup (stamps (cacheRef s)) ->
  nondecreasing t (readings e) = true ->
  NoDup (stamps (cacheRef (step s e))).
Proof.
  intros HI Hnd Hm.
  destruct e as [self c r y tValid tNow|n o tSet tScan tLast tRetry]; simpl.
  - unfold fetchCalculation.
    destruct (pendingRequestRef s); auto.
    destruct (valid_entry _ tValid) as [e|] eqn:V.
    + apply valid_entry_Some in V. destruct V as [G _]. simpl.
      now rewrite (stamps_set_same _ _ e).
    + destruct (_ <? MIN_REQUEST_INTERVAL); simpl; auto.
  - destruct (nth_error (awaiting s) n) as [k|] eqn:N;
      [|unfold fetchCalculation_resume; now rewrite N].
    destruct (is_success o) eqn:S.
    + destruct o as [err|status0 err|status data];
      [discriminate | discriminate |].
      destruct (resume_success s n k status data tSet tScan tLast tRetry N S)
        as (R1 & _).
      rewrite R1. apply NoDup_stamps_put; auto.
      simpl in Hm. apply andb_prop in Hm. destruct Hm as [H0 _].
      apply Z.leb_le in H0.
      destruct HI as [I1 I2 I3 I4 I5 I6 I7 I8 I9].
      assert (P : pendingRequestRef s = true).
      { destruct (pendingRequestRef s); auto.
        rewrite I6 in N by reflexivity. destruct n; discriminate. }
      specialize (I7 P). unfold MIN_REQUEST_INTERVAL in I7.
      intros k' e Hin. specialize (I4 _ _ Hin). lia.
    + destruct (resume_failure s n k o tSet tScan tLast tRetry N S)
        as (R1 & _).
      now rewrite R1.
Qed.

Lemma stamps_run (evs : list Event) (t : Z) (s : State) :
  Inv t s -> NoDup (stamps (cacheRef s)) ->
  monotone_clock t evs = true ->
  NoDup (stamps (cacheRef (run s evs))).
Proof.
  revert t s. induction evs as [|e evs IH]; intros t s HI Hnd Hm; [exact Hnd|].
  unfold monotone_clock in *. cbn [flat_map run fold_left] in *.
  rewrite nondecreasing_app in Hm. apply andb_prop in Hm.
  destruct Hm as [H1 H2].
  apply (IH (last (readings e) t)); auto.
  - now apply Inv_step.
  - now apply (stamps_step t).
Qed.

(** X8. On a clock that never goes back, no two entries of the cache ever
    carry the same insertion time: the oldest entry is unique, and the
    eviction never has to choose between entries of equal age. *)
Theorem insertion_times_are_distinct (t0 : Z) (evs : list Event) :
  monotone_clock t0 evs = true ->
  forall k1 k2 e1 e2,
    JsMap.get (cacheRef (run initial evs)) k1 = Some e1 ->
    JsMap.get (cacheRef (run initial evs)) k2 = Some e2 ->
    timestamp e1 = timestamp e2 ->
    k1 = k2.
Proof.
  intros Hm.
  assert (Hnd : NoDup (stamps (cacheRef (run initial evs)))).
  { apply (stamps_run evs t0); auto; [apply Inv_initial | constructor]. }
  revert Hnd. generalize (cacheRef (run initial evs)) as m.
  induction m as [|[k e] rest IH]; intros Hnd k1 k2 e1 e2 G1 G2 T;
    simpl in *; [discriminate|].
  inversion Hnd as [|? ? Hnotin Hnd']; subst.
  assert (Hfresh : forall k' e', JsMap.get rest k' = Some e' ->
                                 timestamp e' <> timestamp e).
  { intros k' e' G Heq. apply Hnotin. unfold stamps. apply in_map_iff.
    exists (k', e'). split; auto. now apply get_In. }
  destruct (String.eqb k k1) eqn:E1; destruct (String.eqb k k2) eqn:E2.
  - apply String.eqb_eq in E1. apply String.eqb_eq in E2. congruence.
  - injection G1 as <-. exfalso. apply (Hfresh _ _ G2). now symmetry.
  - injection G2 as <-. exfalso. now apply (Hfresh _ _ G1).
  - now apply (IH Hnd' k1 k2 e1 e2).
Qed.

Lemma insertion_times_are_distinct_witness :
  monotone_clock 0 (successive 3 1) = true
  /\ forall k1 k2 e1 e2,
      JsMap.get (cacheRef (run initial (successive 3 1))) k1 = Some e1 ->
      JsMap.get (cacheRef (run initial (successive 3 1))) k2 = Some e2 ->
      timestamp e1 = timestamp e2 ->
      k1 = k2.
Proof.
  split; [reflexivity|].
  apply (insertion_times_are_distinct 0 (successive 3 1)). reflexivity.
Defined.

(** ** Retry timers *)

Lemma gate_before_settle (t0 : Z) (before : list Event) (n : nat)
      (outcome : FetchOutcome) (tSet tScan tLast tRetry : Z) (k : Suspended) :
  monotone_clock t0
    (before ++ [Settle n outcome tSet tScan tLast tRetry]) = true ->
  nth_error (awaiting (run initial before)) n = Some k ->
  lastRequestTimeRef (run initial before) + MIN_REQUEST_INTERVAL <= tSet
  /\ tSet <= tScan /\ tScan <= tLast /\ tLast <= tRetry.
Proof.
  intros Hm N.
  rewrite monotone_clock_app in Hm. apply andb_prop in Hm.
  destruct Hm as [Hm1 Hm2].
  pose proof (Inv_run before t0 initial (Inv_initial t0) Hm1) as HI.
  unfold monotone_clock in Hm2. simpl in Hm2.
  repeat (apply andb_prop in Hm2; destruct Hm2 as [? Hm2]).
  repeat match goal with H : (_ <=? _) = true |- _ => apply Z.leb_le in H end.
  destruct HI as [I1 I2 I3 I4 I5 I6 I7 I8 I9].
  assert (P : pendingRequestRef (run initial before) = true).
  { destruct (pendingRequestRef (run initial before)); auto.
    rewrite I6 in N by reflexivity. destruct n; discriminate. }
  specialize (I7 P). repeat split; auto. lia.
Qed.

Lemma resume_timeouts (s : State) (n : nat) (k : Suspended)
      (outcome : FetchOutcome) (tSet tScan tLast tRetry : Z) :
  nth_error (awaiting s) n = Some k ->
  let s' := fetchCalculation_resume s n outcome tSet tScan tLast tRetry in
  let clock := if is_success outcome then tLast else lastRequestTimeRef s in
  requestQueueRef s' = false
  /\ timeouts s'
     = if requestQueueRef s
          && (MIN_REQUEST_INTERVAL - (tRetry - clock) >? 0)
       then timeouts s
              ++ [mkTimeout (closure k) tRetry
                            (MIN_REQUEST_INTERVAL - (tRetry - clock))]
       else timeouts s.
Proof.
  intros N. cbv zeta. unfold fetchCalculation_resume. rewrite N.
  set (s0 := set_awaiting (remove_nth n (awaiting s)) s).
  assert (A2 : lastRequestTimeRef s0 = lastRequestTimeRef s) by reflexivity.
  assert (A8 : requestQueueRef s0 = requestQueueRef s) by reflexivity.
  assert (A9 : timeouts s0 = timeouts s) by reflexivity.
  assert (T : lastRequestTimeRef (try_block k outcome tSet tScan tLast s0)
              = (if is_success outcome then tLast else lastRequestTimeRef s)
              /\ requestQueueRef (try_block k outcome tSet tScan tLast s0)
                 = requestQueueRef s
              /\ timeouts (try_block k outcome tSet tScan tLast s0)
                 = timeouts s).
  { destruct (is_success outcome) eqn:S.
    - destruct outcome as [err|status0 err|status data];
      [discriminate | discriminate |].
      rewrite (try_block_success _ _ _ _ _ _ _ S). repeat split; reflexivity.
    - destruct (try_block_failure k outcome tSet tScan tLast s0 S)
        as (_ & T2 & _ & _ & _ & _ & _ & T8 & T9).
      rewrite T2, T8, T9. auto. }
  destruct T as (T2 & T8 & T9).
  unfold finally_block.
  cbn [requestQueueRef lastRequestTimeRef timeouts
       set_pendingRequestRef set_requestQueueRef].
  rewrite T8, T2.
  destruct (requestQueueRef s); cbn [andb].
  - destruct (_ >? 0); cbn [requestQueueRef timeouts setTimeout
                            set_pendingRequestRef set_requestQueueRef];
      rewrite ?T9; split; reflexivity.
  - cbn [requestQueueRef timeouts set_pendingRequestRef]. now rewrite T8, T9.
Qed.

(** X9. On a clock that never goes back, a settlement sets a retry timer
    exactly when it is a success, the retry flag was up when it settled,
    and the [finally] block reads the clock less than
    [MIN_REQUEST_INTERVAL] after the clock of the rate gate was written:
    the timer is then due one interval after that write and calls the
    closure of the settled call. A settlement that is not a success never
    sets one. In every case the flag ends lowered. *)
Theorem retry_timer_set_exactly_when
        (t0 : Z) (before : list Event) (n : nat) (outcome : FetchOutcome)
        (tSet tScan tLast tRetry : Z) (k : Suspended) :
  monotone_clock t0
    (before ++ [Settle n outcome tSet tScan tLast tRetry]) = true ->
  nth_error (awaiting (run initial before)) n = Some k ->
  let s := run initial before in
  let s' := run initial (before ++ [Settle n outcome tSet tScan tLast tRetry]) in
  requestQueueRef s' = false
  /\ timeouts s'
     = if is_success outcome && requestQueueRef s
          && (tRetry - tLast <? MIN_REQUEST_INTERVAL)
       then timeouts s
              ++ [mkTimeout (closure k) tRetry
                            (tLast + MIN_REQUEST_INTERVAL - tRetry)]
       else timeouts s.
Proof.
  intros Hm N. cbv zeta.
  destruct (gate_before_settle _ _ _ _ _ _ _ _ _ Hm N) as (G & H1 & H2 & H3).
  rewrite run_app. cbn [run fold_left step].
  destruct (resume_timeouts _ n k outcome tSet tScan tLast tRetry N)
    as (Q & T).
  split; [exact Q|]. rewrite T. unfold MIN_REQUEST_INTERVAL in *.
  destruct (is_success outcome); cbn [andb].
  - destruct (requestQueueRef (run initial before)); cbn [andb]; auto.
    destruct (tRetry - tLast <? 1000) eqn:E.
    + apply Z.ltb_lt in E.
      replace (1000 - (tRetry - tLast) >? 0) with true
        by (symmetry; apply Z.gtb_lt; lia).
      do 3 f_equal. lia.
    + apply Z.ltb_ge in E.
      replace (1000 - (tRetry - tLast) >? 0) with false; auto.
      symmetry. rewrite Z.gtb_ltb. apply Z.ltb_ge. lia.
  - replace (1000 - (tRetry - lastRequestTimeRef (run initial before)) >? 0)
      with false; [now rewrite andb_false_r|].
    symmetry. rewrite Z.gtb_ltb. apply Z.ltb_ge. lia.
Qed.

Lemma retry_timer_set_exactly_when_witness :
  monotone_clock 0 (firstn 4 deferred_then_failure
                      ++ [Settle 0 (answer 12 5030000)
                                 12100 12100 12100 12100]) = true
  /\ nth_error (awaiting (run initial (firstn 4 deferred_then_failure))) 0
     = Some (mkSuspended (mkInputs 2500000 6 12) 2500000 6 12
                         (getCacheKey 2500000 6 12))
  /\ timeouts
       (run initial (firstn 4 deferred_then_failure
                       ++ [Settle 0 (answer 12 5030000)
                                  12100 12100 12100 12100]))
     = [mkTimeout (mkInputs 2500000 6 12) 12100 1000].
Proof.
  split; [reflexivity|]. split; [reflexivity|].
  destruct (retry_timer_set_exactly_when 0 (firstn 4 deferred_then_failure) 0
              (answer 12 5030000) 12100 12100 12100 12100
              (mkSuspended (mkInputs 2500000 6 12) 2500000 6 12
                           (getCacheKey 2500000 6 12))
              eq_refl eq_refl) as [_ T].
  exact T.
Defined.

(** ** Cache keys *)

Lemma digits_of_uint (d : Decimal.uint) :
  all_digits (NilEmpty.string_of_uint d) = true.
Proof. induction d; simpl; auto. Qed.

(** A printed integer is a run of digits, not empty, after a sign or not. *)
Lemma toString_shape (z : Z) :
  exists a ds,
    is_digit a = true /\ all_digits ds = true
    /\ (toString z = String a ds
        \/ toString z = String "-"%char (String a ds)).
Proof.
  assert (U : forall d, exists a ds,
               is_digit a = true /\ all_digits ds = true
               /\ NilZero.string_of_uint d = String a ds).
  { intros d. pose proof (digits_of_uint d) as H.
    destruct d; simpl in *;
      try (eexists; eexists; split; [|split; [|reflexivity]];
           [reflexivity | exact H]). }
  unfold toString. destruct (Z.to_int z) as [d|d]; simpl;
    destruct (U d) as (a & ds & Ha & Hds & E); exists a, ds; rewrite E; auto.
Qed.

Lemma toString_inj (x y : Z) : toString x = toString y -> x = y.
Proof.
  unfold toString. intros H. apply DecimalZ.to_int_inj.
  assert (N : forall z, Z.to_int z <> Decimal.Pos Decimal.Nil
                        /\ Z.to_int z <> Decimal.Neg Decimal.Nil).
  { intros [|p|p]; simpl; split; try discriminate;
      intros [= E]; now apply (DecimalPos.Unsigned.to_uint_nonnil p). }
  destruct (N x) as [Nx1 Nx2]. destruct (N y) as [Ny1 Ny2].
  pose proof (NilZero.isi _ Nx1 Nx2) as Ix.
  pose proof (NilZero.isi _ Ny1 Ny2) as Iy.
  rewrite H in Ix. congruence.
Qed.

Lemma dash_not_digit : is_digit "-"%char = false.
Proof. reflexivity. Qed.

Lemma digits_then_dash (a b x y : string) :
  all_digits a = true -> all_digits b = true ->
  (a ++ String "-"%char x)%string = (b ++ String "-"%char y)%string ->
  a = b /\ x = y.
Proof.
  revert b. induction a as [|c a IH]; intros [|c' b] Ha Hb E; simpl in *.
  - injection E as ->. auto.
  - injection E as <- _. apply andb_prop in Hb.
    destruct Hb as [Hb _]. rewrite dash_not_digit in Hb. discriminate.
  - injection E as -> _. apply andb_prop in Ha.
    destruct Ha as [Ha _]. rewrite dash_not_digit in Ha. discriminate.
  - injection E as -> E. apply andb_prop in Ha. apply andb_prop in Hb.
    destruct (IH b) as [-> ->]; tauto.
Qed.

Lemma printed_then_dash (u v : Z) (x y : string) :
  (toString u ++ String "-"%char x)%string = (toString v ++ String "-"%char y)%string ->
  u = v /\ x = y.
Proof.
  intros E.
  destruct (toString_shape u) as (a & ds & Ha & Hds & Su).
  destruct (toString_shape v) as (b & es & Hb & Hes & Sv).
  assert (Da : all_digits (String a ds) = true) by (simpl; now rewrite Ha).
  assert (Db : all_digits (String b es) = true) by (simpl; now rewrite Hb).
  assert (K : toString u = toString v /\ x = y).
  { destruct Su as [Su|Su], Sv as [Sv|Sv]; rewrite Su, Sv in E |- *.
    - destruct (digits_then_dash _ _ _ _ Da Db E) as [-> ->]. auto.
    - simpl in E. injection E as -> _.
      rewrite dash_not_digit in Ha. discriminate.
    - simpl in E. injection E as <- _.
      rewrite dash_not_digit in Hb. discriminate.
    - simpl in E. injection E as -> E.
      destruct (digits_then_dash _ _ _ _ Hds Hes E) as [-> ->]. auto. }
  destruct K as [K ->]. split; [now apply toString_inj | reflexivity].
Qed.

(** X10. For safe integers (no larger in size than [MAX_SAFE_INTEGER],
    which JavaScript prints digit by digit), two calls share a cache key
    only if they have the same cost, the same rate and the same number of
    years, negative values included: within that range an entry is never
    served for other inputs than those it was fetched for. *)
Theorem getCacheKey_inj (c r y c' r' y' : Z) :
  safe_integer c -> safe_integer r -> safe_integer y ->
  safe_integer c' -> safe_integer r' -> safe_integer y' ->
  getCacheKey c r y = getCacheKey c' r' y' ->
  c = c' /\ r = r' /\ y = y'.
Proof.
  intros _ _ _ _ _ _. unfold getCacheKey. intros E.
  apply printed_then_dash in E. destruct E as [-> E].
  apply printed_then_dash in E. destruct E as [-> E].
  apply toString_inj in E. auto.
Qed.

Lemma getCacheKey_inj_witness :
  safe_integer 1 /\ safe_integer (-2) /\ safe_integer 3
  /\ getCacheKey 1 (-2) 3 = getCacheKey 1 (-2) 3
  /\ (1 = 1 /\ -2 = -2 /\ 3 = 3).
Proof.
  assert (S1 : safe_integer 1) by (unfold safe_integer; vm_compute; split; discriminate).
  assert (S2 : safe_integer (-2)) by (unfold safe_integer; vm_compute; split; discriminate).
  assert (S3 : safe_integer 3) by (unfold safe_integer; vm_compute; split; discriminate).
  split; [exact S1|]. split; [exact S2|]. split; [exact S3|].
  split; [reflexivity|].
  apply (getCacheKey_inj 1 (-2) 3 1 (-2) 3 S1 S2 S3 S1 S2 S3). reflexivity.
Defined.

(** ** The debounce timer *)

Lemma Inputs_eqb_eq (a b : Inputs) : Inputs_eqb a b = true -> a = b.
Proof.
  destruct a as [c r y], b as [c' r' y']. unfold Inputs_eqb. simpl.
  intros H. apply andb_prop in H. destruct H as [H Hy].
  apply andb_prop in H. destruct H as [Hc Hr].
  apply Z.eqb_eq in Hc. apply Z.eqb_eq in Hr. apply Z.eqb_eq in Hy.
  now subst.
Qed.

Lemma ui_inv_step (c : Component) (e : UiEvent) :
  (mounted c = false ->
   debounceTimerRef c = None /\ triggers c = [] /\ coordinator c = initial) ->
  (forall d, debounceTimerRef c = Some d -> captured d = inputs c) ->
  (mounted (ui_step c e) = false ->
   debounceTimerRef (ui_step c e) = None
   /\ triggers (ui_step c e) = []
   /\ coordinator (ui_step c e) = initial)
  /\ (forall d, debounceTimerRef (ui_step c e) = Some d ->
                captured d = inputs (ui_step c e)).
Proof.
  destruct c as [i m tm co tr]. simpl. intros Hu Hc.
  destruct e as [t|t next|t|t|t o]; simpl.
  - destruct m; simpl; [split; [discriminate | exact Hc]|].
    unfold commit, deps_changed. simpl.
    split; [discriminate | now intros d [= <-]].
  - unfold commit, deps_changed. simpl. rewrite Bool.eqb_reflx. simpl.
    destruct (Inputs_eqb i next) eqn:E; simpl.
    + apply Inputs_eqb_eq in E. subst next. split; auto.
    + destruct m; simpl.
      * split; [discriminate | now intros d [= <-]].
      * split; auto. intros d Hd.
        destruct (Hu eq_refl) as (Ht & _). congruence.
  - destruct tm as [d0|]; simpl; [|split; auto].
    destruct (due d0 <=? t); simpl; [|split; auto].
    destruct m; [split; [discriminate | discriminate]|].
    destruct (Hu eq_refl) as (Ht & _). discriminate.
  - destruct (timeouts co) as [|r rest] eqn:T; simpl; [split; auto|].
    destruct (armed_at r + delay r <=? t); simpl; [|split; auto].
    destruct m; [split; [discriminate | exact Hc]|].
    destruct (Hu eq_refl) as (_ & _ & Hco). subst co. discriminate.
  - split; [|exact Hc]. intros Hm. destruct (Hu Hm) as (H1 & H2 & ->).
    repeat split; auto.
Qed.

Lemma ui_inv_run (evs : list UiEvent) (c : Component) :
  (mounted c = false ->
   debounceTimerRef c = None /\ triggers c = [] /\ coordinator c = initial) ->
  (forall d, debounceTimerRef c = Some d -> captured d = inputs c) ->
  (mounted (ui_run c evs) = false ->
   debounceTimerRef (ui_run c evs) = None
   /\ triggers (ui_run c evs) = []
   /\ coordinator (ui_run c evs) = initial)
  /\ (forall d, debounceTimerRef (ui_run c evs) = Some d ->
                captured d = inputs (ui_run c evs)).
Proof.
  revert c. induction evs as [|e evs IH]; intros c Hu Hc; [now split|].
  cbn [ui_run fold_left].
  destruct (ui_inv_step c e Hu Hc) as [Hu' Hc']. now apply IH.
Qed.

(** X11. Whatever the widget has been through, the debounce timer that is
    pending, if any, holds the inputs now on screen: when it fires it
    calls [fetchCalculation] with the latest values, not with those of an
    earlier change. *)
Theorem debounce_timer_holds_latest_inputs (evs : list UiEvent) :
  let c := ui_run first_render evs in
  forall d, debounceTimerRef c = Some d ->
            captured d = inputs c /\ mounted c = true.
Proof.
  cbv zeta. intros d Hd.
  destruct (ui_inv_run evs first_render) as [Hu Hc].
  - intros _. repeat split; reflexivity.
  - discriminate.
  - split; [now apply Hc|].
    destruct (mounted (ui_run first_render evs)); auto.
    destruct (Hu eq_refl) as (Ht & _). congruence.
Qed.

(** X12. Until it has mounted, the widget calls nothing and sends nothing,
    whatever happens to its inputs or timers: no call of
    [fetchCalculation], no request, no timer, and the coordinator is in
    its initial state. *)
Theorem nothing_before_mount (evs : list UiEvent) :
  let c := ui_run first_render evs in
  mounted c = false ->
  triggers c = []
  /\ debounceTimerRef c = None
  /\ requests (coordinator c) = []
  /\ coordinator c = initial.
Proof.
  cbv zeta. intros Hm.
  destruct (ui_inv_run evs first_render) as [Hu _].
  - intros _. repeat split; reflexivity.
  - discriminate.
  - destruct (Hu Hm) as (H1 & H2 & H3). rewrite H3. auto.
Qed.

Lemma nothing_before_mount_witness :
  mounted (ui_run first_render
             [SetInputs 5000 (mkInputs 2500000 6 11); DebounceFires 6000])
  = false
  /\ triggers (ui_run first_render
                 [SetInputs 5000 (mkInputs 2500000 6 11); DebounceFires 6000])
     = [].
Proof.
  split; [reflexivity|].
  apply (nothing_before_mount
           [SetInputs 5000 (mkInputs 2500000 6 11); DebounceFires 6000]).
  reflexivity.
Defined.

(** X13. After a change of the inputs of a mounted widget at time [t], the
    debounce timer does nothing before [t + DEBOUNCE_DELAY]; from then on
    it fires once, calling [fetchCalculation] with the changed inputs,
    and firing again does nothing. *)
Theorem debounce_fires_once_after_delay
        (c : Component) (t t' : Z) (next : Inputs) :
  mounted c = true ->
  Inputs_eqb (inputs c) next = false ->
  let c1 := ui_step c (SetInputs t next) in
  (t' < t + DEBOUNCE_DELAY -> ui_step c1 (DebounceFires t') = c1)
  /\ (t + DEBOUNCE_DELAY <= t' ->
      let c2 := ui_step c1 (DebounceFires t') in
      triggers c2 = triggers c1 ++ [mkTrigger DebounceTimer t' next]
      /\ debounceTimerRef c2 = None
      /\ forall t'', ui_step c2 (DebounceFires t'') = c2).
Proof.
  destruct c as [i m tm co tr]. simpl. intros -> D.
  unfold commit, deps_changed. simpl. rewrite D. simpl. split.
  - intros H. apply Z.leb_gt in H. now rewrite H.
  - intros H. apply Z.leb_le in H. rewrite H. simpl. repeat split; auto.
Qed.

Lemma debounce_fires_once_after_delay_witness :
  mounted (ui_run first_render settled_mount) = true
  /\ Inputs_eqb (inputs (ui_run first_render settled_mount))
                (mkInputs 2500000 6 11) = false
  /\ ui_step (ui_step (ui_run first_render settled_mount)
                (SetInputs 20000 (mkInputs 2500000 6 11)))
             (DebounceFires 20499)
     = ui_step (ui_run first_render settled_mount)
               (SetInputs 20000 (mkInputs 2500000 6 11)).
Proof.
  split; [reflexivity|]. split; [reflexivity|].
  destruct (debounce_fires_once_after_delay
              (ui_run first_render settled_mount) 20000 20499
              (mkInputs 2500000 6 11) eq_refl eq_refl) as [Hearly _].
  apply Hearly. reflexivity.
Defined.

Lemma debounce_timer_holds_latest_inputs_witness :
  debounceTimerRef
    (ui_run first_render
       (settled_mount ++ [SetInputs 20000 (mkInputs 2500000 6 11)]))
  = Some (mkDebounce 20500 (mkInputs 2500000 6 11))
  /\ captured (mkDebounce 20500 (mkInputs 2500000 6 11))
     = inputs (ui_run first_render
                 (settled_mount ++ [SetInputs 20000 (mkInputs 2500000 6 11)])).
Proof.
  split; [reflexivity|].
  apply (debounce_timer_holds_latest_inputs
           (settled_mount ++ [SetInputs 20000 (mkInputs 2500000 6 11)])
           (mkDebounce 20500 (mkInputs 2500000 6 11))).
  reflexivity.
Defined.

(** ** The widget as a client of the coordinator *)

Lemma forget_call (s1 s2 : State) (self : Inputs) (c r y tValid tNow : Z) :
  forget_timeouts s1 = forget_timeouts s2 ->
  forget_timeouts (fetchCalculation s1 self c r y tValid tNow)
  = forget_timeouts (fetchCalculation s2 self c r y tValid tNow).
Proof.
  destruct s1 as [ca la qu pe re lo er rq aw ts].
  destruct s2 as [ca' la' qu' pe' re' lo' er' rq' aw' ts'].
  unfold forget_timeouts, set_timeouts. simpl.
  intros [= <- <- <- <- <- <- <- <- <-].
  unfold fetchCalculation. simpl.
  destruct pe; [reflexivity|].
  destruct (valid_entry _ tValid) as [e|];
    try destruct (_ <? MIN_REQUEST_INTERVAL); reflexivity.
Qed.

Lemma forget_fields (s1 s2 : State) :
  forget_timeouts s1 = forget_timeouts s2 ->
  cacheRef s1 = cacheRef s2
  /\ lastRequestTimeRef s1 = lastRequestTimeRef s2
  /\ requestQueueRef s1 = requestQueueRef s2
  /\ pendingRequestRef s1 = pendingRequestRef s2
  /\ cur_result s1 = cur_result s2
  /\ loading s1 = loading s2
  /\ error s1 = error s2
  /\ requests s1 = requests s2
  /\ awaiting s1 = awaiting s2.
Proof.
  destruct s1, s2. unfold forget_timeouts, set_timeouts. simpl.
  intros [= <- <- <- <- <- <- <- <- <-]. repeat split; reflexivity.
Qed.

Lemma forget_intro (s1 s2 : State) :
  cacheRef s1 = cacheRef s2 ->
  lastRequestTimeRef s1 = lastRequestTimeRef s2 ->
  requestQueueRef s1 = requestQueueRef s2 ->
  pendingRequestRef s1 = pendingRequestRef s2 ->
  cur_result s1 = cur_result s2 ->
  loading s1 = loading s2 ->
  error s1 = error s2 ->
  requests s1 = requests s2 ->
  awaiting s1 = awaiting s2 ->
  forget_timeouts s1 = forget_timeouts s2.
Proof.
  destruct s1, s2. unfold forget_timeouts, set_timeouts. simpl.
  intros. subst. reflexivity.
Qed.

Lemma forget_settle (s1 s2 : State) (n : nat) (o : FetchOutcome)
      (tSet tScan tLast tRetry : Z) :
  forget_timeouts s1 = forget_timeouts s2 ->
  forget_timeouts (fetchCalculation_resume s1 n o tSet tScan tLast tRetry)
  = forget_timeouts (fetchCalculation_resume s2 n o tSet tScan tLast tRetry).
Proof.
  intros H. pose proof (forget_fields _ _ H)
    as (E1 & E2 & E3 & E4 & E5 & E6 & E7 & E8 & E9).
  unfold fetchCalculation_resume. rewrite <- E9.
  destruct (nth_error (awaiting s1) n) as [k|] eqn:N; [|exact H].
  set (a1 := set_awaiting (remove_nth n (awaiting s1)) s1).
  set (a2 := set_awaiting (remove_nth n (awaiting s1)) s2).
  destruct (finally_block_fields k tRetry (try_block k o tSet tScan tLast a1))
    as (F1 & F2 & F3 & F4 & F5 & F6 & F7 & F8 & F9).
  destruct (finally_block_fields k tRetry (try_block k o tSet tScan tLast a2))
    as (G1 & G2 & G3 & G4 & G5 & G6 & G7 & G8 & G9).
  apply forget_intro;
    rewrite ?F1, ?F2, ?F3, ?F4, ?F5, ?F6, ?F7, ?F8, ?F9,
            ?G1, ?G2, ?G3, ?G4, ?G5, ?G6, ?G7, ?G8, ?G9; try reflexivity;
    destruct o as [err|status0 err|status data]; simpl;
    try destruct ((status =? 429) || strict_eq_num (data_status data) 429);
    try destruct (negb (response_ok status)
                  || truthy_num (data_status data)
                     && negb (strict_eq_num (data_status data) 200));
    simpl; congruence.
Qed.

Lemma forget_set_timeouts (l : list Timeout) (s : State) :
  forget_timeouts (set_timeouts l s) = forget_timeouts s.
Proof. reflexivity. Qed.

Lemma seen_step (c : Component) (e : UiEvent) (s : State) :
  forget_timeouts (coordinator c) = forget_timeouts s ->
  forget_timeouts (coordinator (ui_step c e))
  = forget_timeouts (run s (seen_by_coordinator c e)).
Proof.
  destruct c as [i m tm co tr]. simpl. intros H.
  destruct e as [t|t next|t|t|t o]; simpl.
  - destruct m; simpl; [exact H|].
    unfold commit, deps_changed. simpl. now apply forget_call.
  - unfold commit, deps_changed. simpl. rewrite Bool.eqb_reflx. simpl.
    destruct (Inputs_eqb i next); simpl;
      [now rewrite andb_false_r|].
    destruct m; simpl; [now apply forget_call | exact H].
  - destruct tm as [d|]; simpl; [|exact H].
    destruct (due d <=? t); simpl; [now apply forget_call | exact H].
  - destruct (timeouts co) as [|r rest]; simpl; [exact H|].
    destruct (armed_at r + delay r <=? t); simpl; [|exact H].
    apply forget_call. now rewrite forget_set_timeouts.
  - now apply forget_settle.
Qed.

Lemma seen_run (evs : list UiEvent) (c : Component) (s : State) :
  forget_timeouts (coordinator c) = forget_timeouts s ->
  forget_timeouts (coordinator (ui_run c evs))
  = forget_timeouts (run s (coordinator_trace c evs)).
Proof.
  revert c s. induction evs as [|e evs IH]; intros c s H; [exact H|].
  cbn [ui_run fold_left coordinator_trace]. rewrite run_app.
  apply IH. now apply seen_step.
Qed.

Lemma nondecreasing_lower (t t' : Z) (l : list Z) :
  t <= t' -> nondecreasing t' l = true -> nondecreasing t l = true.
Proof.
  destruct l as [|x l]; simpl; auto.
  intros Hle H. apply andb_prop in H. destruct H as [H1 H2].
  apply Z.leb_le in H1. rewrite H2, andb_true_r. apply Z.leb_le. lia.
Qed.

Lemma seen_readings (c : Component) (e : UiEvent) :
  flat_map readings (seen_by_coordinator c e) = []
  \/ flat_map readings (seen_by_coordinator c e)
     = [ui_time e; ui_time e]
  \/ flat_map readings (seen_by_coordinator c e)
     = [ui_time e; ui_time e; ui_time e; ui_time e].
Proof.
  destruct e as [t|t next|t|t|t o]; simpl.
  - destruct (mounted c); auto.
  - destruct (mounted c && negb (Inputs_eqb (inputs c) next)); auto.
  - destruct (debounceTimerRef c) as [d|]; auto.
    destruct (due d <=? t); auto.
  - destruct (timeouts (coordinator c)) as [|r rest]; auto.
    destruct (armed_at r + delay r <=? t); auto.
  - auto.
Qed.

Lemma seen_monotone (evs : list UiEvent) (t : Z) (c : Component) :
  nondecreasing t (map ui_time evs) = true ->
  monotone_clock t (coordinator_trace c evs) = true.
Proof.
  revert t c. induction evs as [|e evs IH]; intros t c H; [reflexivity|].
  simpl in H. apply andb_prop in H. destruct H as [H1 H2].
  pose proof H1 as Hle. apply Z.leb_le in Hle.
  unfold monotone_clock in *. cbn [coordinator_trace].
  rewrite flat_map_app, nondecreasing_app.
  specialize (IH (ui_time e) (ui_step c e) H2).
  destruct (seen_readings c e) as [E|[E|E]]; rewrite E; simpl.
  - now apply (nondecreasing_lower t (ui_time e)).
  - now rewrite H1, Z.leb_refl, IH.
  - now rewrite H1, !Z.leb_refl, IH.
Qed.

Lemma loading_run (evs : list Event) (s : State) :
  loading s = pendingRequestRef s ->
  loading (run s evs) = pendingRequestRef (run s evs).
Proof.
  revert s. induction evs as [|e evs IH]; intros s H; [exact H|].
  cbn [run fold_left]. apply IH. now apply loading_step.
Qed.

(** X14. Whatever the user and the network do to a widget, on a clock
    that never goes back: its cache never holds more than
    [MAX_CACHE_SIZE] entries, at most one of its requests is in flight,
    and its loading flag is up exactly while one is. The effects and the
    timers give [fetchCalculation] no way around its guards. *)
Theorem widget_keeps_coordinator_bounds (t0 : Z) (evs : list UiEvent) :
  nondecreasing t0 (map ui_time evs) = true ->
  let s := coordinator (ui_run first_render evs) in
  JsMap.size (cacheRef s) <= MAX_CACHE_SIZE
  /\ (List.length (awaiting s) <= 1)%nat
  /\ loading s = pendingRequestRef s
  /\ (pendingRequestRef s = true <-> awaiting s <> []).
Proof.
  intros Hm. cbv zeta.
  pose proof (seen_run evs first_render initial eq_refl) as H.
  apply forget_fields in H.
  destruct H as (E1 & _ & _ & E4 & _ & E6 & _ & _ & E9).
  rewrite E1, E4, E6, E9.
  set (tr := coordinator_trace first_render evs).
  pose proof (Inv_run tr t0 initial (Inv_initial t0)
                (seen_monotone evs t0 first_render Hm)) as HI.
  destruct (guard_run tr initial) as [Hb Hi];
    [discriminate | reflexivity |].
  split; [exact (inv_size _ _ HI)|]. split; [|split].
  - destruct (pendingRequestRef (run initial tr)).
    + destruct Hb as [k ->]; auto.
    + rewrite Hi; auto.
  - now apply loading_run.
  - split.
    + intros P. destruct (Hb P) as [k ->]. discriminate.
    + intros Hne. destruct (pendingRequestRef (run initial tr)); auto.
Qed.

Lemma widget_keeps_coordinator_bounds_witness :
  nondecreasing 0 (map ui_time (settled_mount ++ change_during_fetch)) = true
  /\ JsMap.size
       (cacheRef (coordinator
                    (ui_run first_render
                       (settled_mount ++ change_during_fetch))))
     <= MAX_CACHE_SIZE.
Proof.
  split; [reflexivity|].
  apply (widget_keeps_coordinator_bounds 0
           (settled_mount ++ change_during_fetch)).
  reflexivity.
Defined.

(** ** The cells of the report *)

Lemma trim_end_keeps_head (c : N) (rest : JsString) :
  is_space c = false -> exists kept, trim_end (c :: rest) = c :: kept.
Proof.
  intros H. simpl. destruct (trim_end rest) as [|x kept].
  - rewrite H. now exists [].
  - now exists (x :: kept).
Qed.

Lemma trim_end_last (s : JsString) (d : N) :
  trim_end s <> [] -> is_space (last (trim_end s) d) = false.
Proof.
  induction s as [|c rest IH]; simpl; [congruence|].
  destruct (trim_end rest) as [|x kept] eqn:E.
  - destruct (is_space c) eqn:Sc; [congruence|]. intros _. exact Sc.
  - intros _. change (is_space (last (x :: kept) d) = false).
    apply IH. discriminate.
Qed.

Lemma trim_end_id (s : JsString) (d : N) :
  s <> [] -> is_space (last s d) = false -> trim_end s = s.
Proof.
  induction s as [|c rest IH]; [congruence|]. intros _ H.
  destruct rest as [|x rest'].
  - simpl in *. now rewrite H.
  - change (is_space (last (x :: rest') d) = false) in H.
    change (trim_end (c :: x :: rest'))
      with (match trim_end (x :: rest') with
            | [] => if is_space c then [] else [c]
            | kept => c :: kept
            end).
    rewrite IH by (discriminate || exact H). reflexivity.
Qed.

Lemma trim_start_head (s : JsString) :
  trim_start s = []
  \/ exists c rest, trim_start s = c :: rest /\ is_space c = false.
Proof.
  induction s as [|c rest IH]; simpl; auto.
  destruct (is_space c) eqn:Sc; auto. right. now exists c, rest.
Qed.

Lemma trim_trimmed (s : JsString) : trimmed (trim s) = true.
Proof.
  unfold trim. destruct (trim_start_head s) as [E|(c & rest & E & Sc)];
    rewrite E; [reflexivity|].
  destruct (trim_end_keeps_head c rest Sc) as (kept & K).
  pose proof (trim_end_last (c :: rest) c) as L. rewrite K in *.
  unfold trimmed. rewrite Sc, L by discriminate. reflexivity.
Qed.

Lemma trim_id (s : JsString) : trimmed s = true -> trim s = s.
Proof.
  destruct s as [|c rest]; [reflexivity|].
  unfold trimmed, trim. intros H. apply andb_prop in H. destruct H as [H1 H2].
  apply negb_true_iff in H1. apply negb_true_iff in H2.
  cbn [trim_start]. rewrite H1.
  apply (trim_end_id _ c); [discriminate | exact H2].
Qed.

Lemma length_trim_end (s : JsString) :
  (List.length (trim_end s) <= List.length s)%nat.
Proof.
  induction s as [|c rest IH]; simpl; auto.
  destruct (trim_end rest) as [|x kept]; simpl in *.
  - destruct (is_space c); simpl; lia.
  - lia.
Qed.

Lemma length_trim_start (s : JsString) :
  (List.length (trim_start s) <= List.length s)%nat.
Proof.
  induction s as [|c rest IH]; simpl; auto.
  destruct (is_space c); simpl; lia.
Qed.

Lemma cellText_keeps (c : N) (body : JsString) :
  in_class c = true -> trimmed (c :: body) = true ->
  cellText (c :: body) = c :: body.
Proof.
  intros Hc Ht. unfold cellText. simpl strip_leading. rewrite Hc.
  now apply trim_id.
Qed.

(** X15. The text of a data cell, as written into the report, never starts
    or ends with white space and is never longer than the cell. A cell
    whose first code unit is outside the allowed class (the currency sign
    of a formatted amount) is written as the rest of the cell, trimmed:
    that is the rest itself, one code unit removed and no more, exactly
    when the rest neither starts nor ends with white space. A cell whose
    first code unit is inside the class is written trimmed, hence
    unchanged when it neither starts nor ends with white space. *)
Theorem cellText_strips_one_sign_and_trims (s : JsString) :
  trimmed (cellText s) = true
  /\ (List.length (cellText s) <= List.length s)%nat
  /\ (forall c body,
         s = c :: body -> in_class c = false ->
         cellText s = trim body
         /\ (trimmed body = true <-> cellText s = body))
  /\ (forall c body,
         s = c :: body -> in_class c = true ->
         cellText s = trim s
         /\ (trimmed s = true <-> cellText s = s)).
Proof.
  assert (T : forall l, trimmed l = true <-> trim l = l).
  { intros l. split; [apply trim_id|].
    intros E. rewrite <- E. apply trim_trimmed. }
  unfold cellText. split; [apply trim_trimmed|]. split; [|split].
  - unfold trim.
    pose proof (length_trim_end (trim_start (strip_leading s))).
    pose proof (length_trim_start (strip_leading s)).
    assert (List.length (strip_leading s) <= List.length s)%nat; [|lia].
    destruct s as [|c rest]; simpl; auto.
    destruct (in_class c); simpl; lia.
  - intros c body -> Hc. simpl strip_leading. rewrite Hc.
    split; [reflexivity | apply T].
  - intros c body -> Hc. simpl strip_leading. rewrite Hc.
    split; [reflexivity | apply T].
Qed.

Lemma units_app (a b : string) : units (a ++ b) = units a ++ units b.
Proof.
  unfold units. induction a as [|c a IH]; simpl; auto. now rewrite IH.
Qed.

Lemma digit_in_class (a : ascii) :
  is_digit a = true ->
  in_class (N_of_ascii a) = true /\ is_space (N_of_ascii a) = false.
Proof.
  unfold is_digit, in_class, is_space. cbv zeta.
  generalize (N_of_ascii a) as n. intros n H.
  apply andb_prop in H. destruct H as [H1 H2].
  apply N.leb_le in H1. apply N.leb_le in H2.
  assert (S : is_space n = false).
  { unfold is_space.
    repeat match goal with
           | |- context [(?x <=? ?y)%N] =>
               let E := fresh in
               destruct (N.leb_spec x y) as [E|E]
           | |- context [(?x =? ?y)%N] =>
               let E := fresh in
               destruct (N.eqb_spec x y) as [E|E]
           end; simpl; auto; lia. }
  split; [|exact S].
  replace ((48 <=? n)%N) with true by (symmetry; now apply N.leb_le).
  replace ((n <=? 57)%N) with true by (symmetry; now apply N.leb_le).
  simpl. now rewrite !orb_true_r.
Qed.

Lemma printed_number_head (z : Z) (tail : string) :
  exists c rest,
    units (toString z ++ tail) = c :: rest
    /\ in_class c = true /\ is_space c = false.
Proof.
  destruct (toString_shape z) as (a & ds & Ha & _ & [E|E]); rewrite E;
    unfold units; simpl.
  - eexists. eexists. split; [reflexivity|]. now apply digit_in_class.
  - eexists. eexists. split; [reflexivity|]. split; reflexivity.
Qed.

Lemma last_app_nonempty (l1 l2 : JsString) (d : N) :
  l2 <> [] -> last (l1 ++ l2) d = last l2 d.
Proof.
  intros H. induction l1 as [|x l1 IH]; simpl; auto.
  destruct (l1 ++ l2) eqn:E; [|exact IH].
  apply app_eq_nil in E. destruct E. congruence.
Qed.

Lemma last_nonempty_default (l : JsString) (d d' : N) :
  l <> [] -> last l d = last l d'.
Proof.
  induction l as [|x l IH]; [congruence|]. intros _.
  destruct l as [|y l]; [reflexivity|].
  change (last (y :: l) d = last (y :: l) d'). apply IH. discriminate.
Qed.

(** X16. The rate and the years cells of the report are written exactly
    as formatted, for every integer value, negative ones included: the
    clean-up of the cell text removes nothing of them. *)
Theorem number_cells_written_as_formatted (z : Z) :
  cellText (units (toString z ++ " %")) = units (toString z ++ " %")
  /\ cellText (units (toString z ++ " Years"))
     = units (toString z ++ " Years").
Proof.
  assert (K : forall tail d,
             units tail <> [] -> is_space (last (units tail) d) = false ->
             cellText (units (toString z ++ tail))
             = units (toString z ++ tail)).
  { intros tail d Hne Hl.
    destruct (printed_number_head z tail) as (c & rest & E & Hc & Hs).
    assert (L : is_space (last (c :: rest) c) = false).
    { rewrite <- E, units_app, last_app_nonempty by exact Hne.
      rewrite (last_nonempty_default _ c d) by exact Hne. exact Hl. }
    rewrite E. apply cellText_keeps; [exact Hc|].
    unfold trimmed. now rewrite Hs, L. }
  split; apply (K _ 0%N); try discriminate; reflexivity.
Qed.

(** ** The report as a whole *)

(** X17. [downloadPDF] writes a document exactly when a result is
    published, which is exactly when the download button is enabled; the
    result table repeats the rows of the input table, taken from the
    inputs on screen, and adds the future cost; so of the published
    result only [future_amount] reaches the report: the cost, the rate
    and the years echoed by the service never do. *)
Theorem report_reads_inputs_and_amount
        (formatCurrency : Z -> JsString) (i : Inputs) (s : State) :
  (downloadPDF formatCurrency i (cur_result s) <> None
   <-> download_enabled s = true)
  /\ (forall r,
         resultData formatCurrency i r
         = inputData formatCurrency i
             ++ [[units "Future Cost"; formatCurrency (future_amount r)]])
  /\ (forall r r',
         future_amount r = future_amount r' ->
         downloadPDF formatCurrency i (Some r)
         = downloadPDF formatCurrency i (Some r'))
  /\ (forall r doc,
         downloadPDF formatCurrency i (Some r) = Some doc ->
         In (cellText (formatCurrency (currentCost i))) (texts doc)
         /\ In (cellText (formatCurrency (future_amount r))) (texts doc)
         /\ saved_as doc = units "future-value-calculator-report.pdf").
Proof.
  split; [|split; [|split]].
  - unfold download_enabled, downloadPDF.
    destruct (cur_result s); split; congruence.
  - reflexivity.
  - intros r r' E. unfold downloadPDF, resultData. now rewrite E.
  - intros r doc [= <-]. cbn [texts saved_as]. split; [|split].
    + do 6 right. left. reflexivity.
    + do 21 right. left. reflexivity.
    + reflexivity.
Qed.

(** ** Overwriting, spacing and failures *)

(** X18. On a clock that never goes back, a success for a key that is
    already in the cache (an expired entry fetched again) overwrites the
    entry where it stands: the keys and their iteration order are as
    before, nothing is evicted, and the entry restarts with the new
    insertion time and a hit count of 1. *)
Theorem refetched_key_is_overwritten_in_place
        (t0 : Z) (before : list Event) (n : nat) (status : Z) (data : Payload)
        (tSet tScan tLast tRetry : Z) (k : Suspended) (old : CacheEntry) :
  monotone_clock t0
    (before ++ [Settle n (Responded status data) tSet tScan tLast tRetry])
  = true ->
  nth_error (awaiting (run initial before)) n = Some k ->
  is_success (Responded status data) = true ->
  JsMap.get (cacheRef (run initial before)) (cacheKey k) = Some old ->
  let s' :=
    run initial
      (before ++ [Settle n (Responded status data) tSet tScan tLast tRetry]) in
  JsMap.keys (cacheRef s') = JsMap.keys (cacheRef (run initial before))
  /\ JsMap.get (cacheRef s') (cacheKey k)
     = Some (mkEntry (normalize k data) tSet 1)
  /\ forall k', k' <> cacheKey k ->
                JsMap.get (cacheRef s') k'
                = JsMap.get (cacheRef (run initial before)) k'.
Proof.
  intros Hm N S G. cbv zeta.
  destruct (before_settle _ _ _ _ _ _ _ _ _ Hm N)
    as (B1 & B2 & B3 & B4 & B5 & _).
  rewrite run_app. cbn [run fold_left step].
  destruct (resume_success _ _ _ _ _ tSet tScan tLast tRetry N S) as (R1 & _).
  rewrite R1, cache_put_fits.
  - rewrite keys_set, G. repeat split.
    + apply get_set_same.
    + intros k' Hne. now apply get_set_other.
  - now rewrite size_set, G.
Qed.

Lemma refetched_key_is_overwritten_in_place_witness :
  let evs :=
    [Call default_inputs 2500000 6 10 10000 10000;
     Settle 0 (answer 10 4476000) 10100 10100 10100 10100;
     Call default_inputs 2500000 6 10 700000 700000] in
  monotone_clock 0
    (evs ++ [Settle 0 (answer 10 4476001) 700100 700100 700100 700100]) = true
  /\ nth_error (awaiting (run initial evs)) 0 = Some first_call
  /\ JsMap.get (cacheRef (run initial evs)) (cacheKey first_call)
     = Some (mkEntry (mkResult 2500000 6 10 4476000) 10100 1)
  /\ JsMap.keys
       (cacheRef
          (run initial
             (evs ++ [Settle 0 (answer 10 4476001)
                             700100 700100 700100 700100])))
     = JsMap.keys (cacheRef (run initial evs)).
Proof.
  cbv zeta.
  split; [reflexivity|]. split; [reflexivity|]. split; [reflexivity|].
  apply (refetched_key_is_overwritten_in_place 0
           [Call default_inputs 2500000 6 10 10000 10000;
            Settle 0 (answer 10 4476000) 10100 10100 10100 10100;
            Call default_inputs 2500000 6 10 700000 700000]
           0 200
           (mkPayload (Some 2500000) (Some 6) (Some 10) (Some 4476001)
                      (Some 200) None)
           700100 700100 700100 700100 first_call
           (mkEntry (mkResult 2500000 6 10 4476000) 10100 1));
    reflexivity.
Defined.

(** X19. On a clock that never goes back, the clock of the rate gate
    never goes back either: a call leaves it alone, a settlement that is
    not a success leaves it alone, and a success moves it forward by at
    least [MIN_REQUEST_INTERVAL], so two successes are never closer than
    that. *)
Theorem gate_clock_moves_forward
        (t0 : Z) (before : list Event) (e : Event) :
  monotone_clock t0 (before ++ [e]) = true ->
  let s := run initial before in
  let s' := run initial (before ++ [e]) in
  lastRequestTimeRef s <= lastRequestTimeRef s'
  /\ (lastRequestTimeRef s' <> lastRequestTimeRef s ->
      lastRequestTimeRef s + MIN_REQUEST_INTERVAL <= lastRequestTimeRef s'
      /\ exists n status data tSet tScan tLast tRetry,
          e = Settle n (Responded status data) tSet tScan tLast tRetry
          /\ is_success (Responded status data) = true
          /\ lastRequestTimeRef s' = tLast).
Proof.
  intros Hm. cbv zeta. rewrite run_app. cbn [run fold_left].
  destruct e as [self c r y tValid tNow|n o tSet tScan tLast tRetry];
    cbn [step].
  - assert (E : lastRequestTimeRef
                  (fetchCalculation (run initial before) self c r y tValid tNow)
                = lastRequestTimeRef (run initial before)).
    { unfold fetchCalculation.
      destruct (pendingRequestRef (run initial before)); auto.
      destruct (valid_entry _ tValid) as [e|];
        try destruct (_ <? MIN_REQUEST_INTERVAL); reflexivity. }
    rewrite E. split; [lia | congruence].
  - destruct (nth_error (awaiting (run initial before)) n) as [k|] eqn:N.
    + destruct (gate_before_settle _ _ _ _ _ _ _ _ _ Hm N)
        as (G & H1 & H2 & H3).
      destruct (is_success o) eqn:S.
      * destruct o as [err|status0 err|status data];
      [discriminate | discriminate |].
        destruct (resume_success _ n k status data tSet tScan tLast tRetry N S)
          as (_ & R2 & _).
        rewrite R2. unfold MIN_REQUEST_INTERVAL in *. split; [lia|].
        intros _. split; [lia|].
        exists n, status, data, tSet, tScan, tLast, tRetry. auto.
      * destruct (resume_failure _ n k o tSet tScan tLast tRetry N S)
          as (_ & R2 & _).
        rewrite R2. split; [lia | congruence].
    + unfold fetchCalculation_resume. rewrite N. split; [lia | congruence].
Qed.

Lemma gate_clock_moves_forward_witness :
  monotone_clock 0
    ([Call default_inputs 2500000 6 10 10000 10000]
       ++ [Settle 0 (answer 10 4476000) 10100 10100 10100 10100]) = true
  /\ lastRequestTimeRef in_flight <= lastRequestTimeRef answered.
Proof.
  split; [reflexivity|].
  destruct (gate_clock_moves_forward 0
              [Call default_inputs 2500000 6 10 10000 10000]
              (Settle 0 (answer 10 4476000) 10100 10100 10100 10100)
              eq_refl) as [H _].
  exact H.
Defined.

Lemma call_sends (s : State) (self : Inputs) (c r y tValid tNow : Z) :
  pendingRequestRef s = false ->
  (forall e, JsMap.get (cacheRef s) (getCacheKey c r y) = Some e ->
             CACHE_DURATION <= tValid - timestamp e) ->
  MIN_REQUEST_INTERVAL <= tNow - lastRequestTimeRef s ->
  requests (fetchCalculation s self c r y tValid tNow)
  = requests s ++ [mkRequest (toString (Math_floor c)) (toString r)
                             (toString (Math_floor y))].
Proof.
  intros P V G. unfold fetchCalculation, valid_entry, isCacheValid.
  rewrite P. apply Z.ltb_ge in G. rewrite G.
  destruct (JsMap.get (cacheRef s) (getCacheKey c r y)) as [e|];
    [|reflexivity].
  specialize (V e eq_refl). apply Z.ltb_ge in V. now rewrite V.
Qed.

(** X20. A request that fails, rate-limited or not, does not hold back the
    next one: on a clock that never goes back, the first call made after
    the failure for a key without a servable entry is sent at once,
    however soon it comes. *)
Theorem call_after_failure_is_sent
        (t0 : Z) (before : list Event) (n : nat) (outcome : FetchOutcome)
        (tSet tScan tLast tRetry : Z) (k : Suspended)
        (self : Inputs) (c r y tValid tNow : Z) :
  monotone_clock t0
    (before ++ [Settle n outcome tSet tScan tLast tRetry;
                Call self c r y tValid tNow]) = true ->
  nth_error (awaiting (run initial before)) n = Some k ->
  is_success outcome = false ->
  (forall e, JsMap.get (cacheRef (run initial before)) (getCacheKey c r y)
             = Some e ->
             CACHE_DURATION <= tValid - timestamp e) ->
  let s1 := run initial (before ++ [Settle n outcome tSet tScan tLast tRetry]) in
  let s2 := step s1 (Call self c r y tValid tNow) in
  requests s2
  = requests s1 ++ [mkRequest (toString (Math_floor c)) (toString r)
                              (toString (Math_floor y))].
Proof.
  intros Hm N S V. cbv zeta.
  change (before ++ [Settle n outcome tSet tScan tLast tRetry;
                     Call self c r y tValid tNow])
    with (before ++ [Settle n outcome tSet tScan tLast tRetry]
                 ++ [Call self c r y tValid tNow]) in Hm.
  rewrite app_assoc, monotone_clock_app in Hm.
  apply andb_prop in Hm. destruct Hm as [Hm1 Hm2].
  destruct (gate_before_settle _ _ _ _ _ _ _ _ _ Hm1 N) as (G & H1 & H2 & H3).
  assert (C : tRetry <= tValid /\ tValid <= tNow).
  { unfold monotone_clock, clock_after in Hm2.
    rewrite flat_map_app, last_app_default in Hm2. simpl in Hm2.
    repeat (apply andb_prop in Hm2; destruct Hm2 as [? Hm2]).
    repeat match goal with H : (_ <=? _) = true |- _ => apply Z.leb_le in H end.
    auto. }
  rewrite run_app. cbn [run fold_left step].
  destruct (resume_failure _ n k outcome tSet tScan tLast tRetry N S)
    as (R1 & R2 & _ & _ & _ & R6).
  apply call_sends; [exact R6 | now rewrite R1 |].
  rewrite R2. unfold MIN_REQUEST_INTERVAL in *. lia.
Qed.

Lemma call_after_failure_is_sent_witness :
  monotone_clock 0
    ([Call default_inputs 2500000 6 10 10000 10000]
       ++ [Settle 0 (Rejected OtherValue) 10100 10100 10100 10100;
           Call default_inputs 2500000 6 10 10101 10101]) = true
  /\ nth_error (awaiting in_flight) 0 = Some first_call
  /\ is_success (Rejected OtherValue) = false
  /\ List.length
       (requests
          (run initial
             [Call default_inputs 2500000 6 10 10000 10000;
              Settle 0 (Rejected OtherValue) 10100 10100 10100 10100;
              Call default_inputs 2500000 6 10 10101 10101])) = 2%nat.
Proof.
  split; [reflexivity|]. split; [reflexivity|]. split; [reflexivity|].
  assert (V : forall e,
             JsMap.get (cacheRef (run initial
                          [Call default_inputs 2500000 6 10 10000 10000]))
                       (getCacheKey 2500000 6 10) = Some e ->
             CACHE_DURATION <= 10101 - timestamp e)
    by (intros e; vm_compute; discriminate).
  pose proof (call_after_failure_is_sent 0
                [Call default_inputs 2500000 6 10 10000 10000] 0
                (Rejected OtherValue) 10100 10100 10100 10100 first_call
                default_inputs 2500000 6 10 10101 10101
                eq_refl eq_refl eq_refl V) as H.
  cbv zeta in H.
  change (run initial
            [Call default_inputs 2500000 6 10 10000 10000;
             Settle 0 (Rejected OtherValue) 10100 10100 10100 10100;
             Call default_inputs 2500000 6 10 10101 10101])
    with (step (run initial
                  ([Call default_inputs 2500000 6 10 10000 10000]
                     ++ [Settle 0 (Rejected OtherValue)
                                10100 10100 10100 10100]))
               (Call default_inputs 2500000 6 10 10101 10101)).
  rewrite H. reflexivity.
Defined.
